(** * SeanLogger: a rotating log writer (package [logger])

    A shallow embedding of [logger.go].  The Go code talks to three things
    outside itself: the clock ([time.Now().Unix()] and
    [utils.FullDateStringSafe()]), the file system ([os.Create], writes and
    [Close] on [os.File]) and the buffered writer of the Go standard library
    ([bufio.Writer], reached through [fmt.Fprintln]).  Each of them is modelled
    explicitly:

    - what the clock and the kernel answer during one call of a method is an
      [Env] value handed to that call;
    - the file system is a [World]: the files on disk in creation order, the
      table of open descriptors and the list of system calls made so far;
    - [bufio.Writer] is the module [bufio], written after the library's
      [Write] and [Flush].

    A method of [SeanLogger] becomes a function from the receiver and the world
    to an [outcome], which says whether the call returned or panicked on a nil
    pointer and carries the receiver and the world as they are at that point. *)

From Stdlib Require Import ZArith List String Ascii Bool Arith Lia.
Import ListNotations.

Local Open Scope string_scope.
Local Open Scope Z_scope.

(** ** Machine integers *)

Module Int.

Definition modulus : Z := 2 ^ 64.
Definition half : Z := 2 ^ 63.

(** A value of Go's [uint64]: arithmetic wraps modulo 2^64. *)
Definition uint64 (z : Z) : Z := z mod modulus.

(** A value of Go's [int64]: two's complement wrap-around. *)
Definition int64 (z : Z) : Z := (z + half) mod modulus - half.

Definition is_int64 (z : Z) : Prop := - half <= z < half.

End Int.

(** ** Strings as byte sequences *)

Definition newline : string := String (ascii_of_nat 10) EmptyString.

(** [s[n:]] of Go. *)
Definition drop (n : nat) (s : string) : string :=
  substring n (String.length s - n) s.

(** [s[:n]] of Go. *)
Definition take (n : nat) (s : string) : string := substring 0 n s.

(** ** Errors *)

Inductive error : Type :=
| ErrInvalid                      (* os.ErrInvalid: method called on a nil file pointer *)
| ErrClosed                       (* os.ErrClosed: the file is already closed *)
| PathError (op path : string).   (* what os.Create reports *)

(** ** The environment of one call *)

(** What the outside world answers during one call of [StartLog] or
    [LogMessage].  Each of these calls reads the clock at most once, asks for at
    most one date string and creates at most one file. *)
Record Env : Type := mkEnv {
  env_unix : Z;                   (* time.Now().Unix() *)
  env_dts : string;               (* utils.FullDateStringSafe() *)
  env_create_err : option error   (* the err of os.Create; None is nil *)
}.

Definition time_Now_Unix (e : Env) : Z := Int.int64 (env_unix e).

(** ** The file system *)

Definition fd := nat.

Inductive syscall : Type :=
| SysCreate (name : string) (err : option error)
| SysWrite (f : fd) (data : string)
| SysClose (f : fd).

Record World : Type := mkWorld {
  disk : list (string * string);   (* name and contents, in creation order *)
  opened : list (fd * string);     (* open descriptors and the file each is on *)
  next_fd : fd;
  syscalls : list syscall          (* oldest first *)
}.

Module os.

Fixpoint lookup {A : Type} (f : fd) (t : list (fd * A)) : option A :=
  match t with
  | [] => None
  | (g, a) :: t' => if Nat.eqb f g then Some a else lookup f t'
  end.

Fixpoint content (name : string) (d : list (string * string)) : option string :=
  match d with
  | [] => None
  | (n, c) :: d' => if String.eqb name n then Some c else content name d'
  end.

(** O_CREATE|O_TRUNC: an existing file is emptied where it stands, a new one
    is added after the others. *)
Fixpoint truncate (name : string) (d : list (string * string)) :
  list (string * string) :=
  match d with
  | [] => [(name, "")]
  | (n, c) :: d' =>
      if String.eqb name n then (n, "") :: d' else (n, c) :: truncate name d'
  end.

Fixpoint append_to (name data : string) (d : list (string * string)) :
  list (string * string) :=
  match d with
  | [] => []
  | (n, c) :: d' =>
      if String.eqb name n then (n, c ++ data) :: d'
      else (n, c) :: append_to name data d'
  end.

Definition log_call (c : syscall) (w : World) : World :=
  mkWorld (disk w) (opened w) (next_fd w) (syscalls w ++ [c]).

(** [os.Create(name)]: the kernel's answer is the environment's. *)
Definition Create (e : Env) (name : string) (w : World) :
  option fd * option error * World :=
  match env_create_err e with
  | Some err => (None, Some err, log_call (SysCreate name (Some err)) w)
  | None =>
      let f := next_fd w in
      (Some f, None,
       mkWorld (truncate name (disk w)) ((f, name) :: opened w) (S f)
               (syscalls w ++ [SysCreate name None]))
  end.

(** [Write] of [os.File]: a nil receiver gives [ErrInvalid], a closed file
    [ErrClosed]; otherwise all of [p] is written, at the end of the file the
    descriptor is on (the logger writes to a file through one descriptor
    only, and from its start). *)
Definition Write (f : option fd) (p : string) (w : World) :
  nat * option error * World :=
  match f with
  | None => (O, Some ErrInvalid, w)
  | Some f' =>
      match lookup f' (opened w) with
      | None => (O, Some ErrClosed, w)
      | Some name =>
          (String.length p, None,
           mkWorld (append_to name p (disk w)) (opened w) (next_fd w)
                   (syscalls w ++ [SysWrite f' p]))
      end
  end.

(** [Close] of [os.File]. *)
Definition Close (f : option fd) (w : World) : option error * World :=
  match f with
  | None => (Some ErrInvalid, w)
  | Some f' =>
      match lookup f' (opened w) with
      | None => (Some ErrClosed, w)
      | Some _ =>
          (None,
           mkWorld (disk w)
                   (filter (fun p => negb (Nat.eqb f' (fst p))) (opened w))
                   (next_fd w) (syscalls w ++ [SysClose f']))
      end
  end.

Definition is_open (f : fd) (w : World) : bool :=
  match lookup f (opened w) with Some _ => true | None => false end.

End os.

(** ** [bufio.Writer] *)

Module bufio.

Definition defaultBufSize : nat := 4096.

(** [buf] holds the pending bytes [b.buf[0:b.n]]; [err] is the sticky error. *)
Record Writer : Type := mkWriter {
  wr : option fd;
  buf : string;
  err : option error
}.

Definition NewWriter (f : option fd) : Writer := mkWriter f "" None.

Definition is_nil (e : option error) : bool :=
  match e with None => true | Some _ => false end.

Definition Available (b : Writer) : nat :=
  (defaultBufSize - String.length (buf b))%nat.

Definition Buffered (b : Writer) : nat := String.length (buf b).

Definition Flush (b : Writer) (w : World) : option error * Writer * World :=
  match err b with
  | Some e => (Some e, b, w)
  | None =>
      if Nat.eqb (Buffered b) 0 then (None, b, w)
      else
        match os.Write (wr b) (buf b) w with
        | (n, Some e, w') => (Some e, mkWriter (wr b) (drop n (buf b)) (Some e), w')
        | (_, None, w') => (None, mkWriter (wr b) "" None, w')
        end
  end.

(** The test of the loop of [Write]: [len(p) > b.Available() && b.err == nil]. *)
Definition loop_cond (b : Writer) (p : string) : bool :=
  Nat.ltb (Available b) (String.length p) && is_nil (err b).

(** The loop of [Write], [fuel] iterations of it at most, then the final
    copy into the buffer. *)
Fixpoint Write_loop (fuel : nat) (b : Writer) (p : string) (w : World) :
  Writer * string * World :=
  match fuel with
  | O => (b, p, w)
  | S fuel' =>
      if loop_cond b p then
        if Nat.eqb (Buffered b) 0 then
          (* large write, empty buffer: straight to the file *)
          match os.Write (wr b) p w with
          | (n, e, w') =>
              Write_loop fuel' (mkWriter (wr b) (buf b) e) (drop n p) w'
          end
        else
          let n := Nat.min (Available b) (String.length p) in
          let b1 := mkWriter (wr b) (buf b ++ take n p) (err b) in
          match Flush b1 w with
          | (_, b2, w') => Write_loop fuel' b2 (drop n p) w'
          end
      else (b, p, w)
  end.

Definition Write (b : Writer) (p : string) (w : World) : Writer * World :=
  match Write_loop 2 b p w with
  | (b', p', w') =>
      match err b' with
      | Some _ => (b', w')
      | None => (mkWriter (wr b') (buf b' ++ take (Available b') p') None, w')
      end
  end.

End bufio.

(** ** The logger *)

Record SeanLogger : Type := mkSeanLogger {
  BaseLogName : string;
  MaxLogFileCount : Z;            (* uint64 *)
  MaxLogMessageCount : Z;         (* uint64 *)
  MaxLogDuration : Z;             (* int64 *)
  logFileCount : Z;               (* uint64 *)
  logMessageCount : Z;            (* uint64 *)
  logDuration : Z;                (* int64 *)
  logStamp : Z;                   (* int64 *)
  log : option fd;                (* a file pointer, None is nil *)
  writer : option bufio.Writer    (* a writer pointer, None is nil *)
}.

(** The zero value of the struct. *)
Definition zero_SeanLogger : SeanLogger :=
  mkSeanLogger "" 0 0 0 0 0 0 0 None None.

Definition set_BaseLogName (v : string) (sl : SeanLogger) : SeanLogger :=
  mkSeanLogger v (MaxLogFileCount sl) (MaxLogMessageCount sl) (MaxLogDuration sl)
    (logFileCount sl) (logMessageCount sl) (logDuration sl) (logStamp sl)
    (log sl) (writer sl).

Definition set_logFileCount (v : Z) (sl : SeanLogger) : SeanLogger :=
  mkSeanLogger (BaseLogName sl) (MaxLogFileCount sl) (MaxLogMessageCount sl)
    (MaxLogDuration sl) v (logMessageCount sl) (logDuration sl) (logStamp sl)
    (log sl) (writer sl).

Definition set_logMessageCount (v : Z) (sl : SeanLogger) : SeanLogger :=
  mkSeanLogger (BaseLogName sl) (MaxLogFileCount sl) (MaxLogMessageCount sl)
    (MaxLogDuration sl) (logFileCount sl) v (logDuration sl) (logStamp sl)
    (log sl) (writer sl).

Definition set_logDuration (v : Z) (sl : SeanLogger) : SeanLogger :=
  mkSeanLogger (BaseLogName sl) (MaxLogFileCount sl) (MaxLogMessageCount sl)
    (MaxLogDuration sl) (logFileCount sl) (logMessageCount sl) v (logStamp sl)
    (log sl) (writer sl).

Definition set_logStamp (v : Z) (sl : SeanLogger) : SeanLogger :=
  mkSeanLogger (BaseLogName sl) (MaxLogFileCount sl) (MaxLogMessageCount sl)
    (MaxLogDuration sl) (logFileCount sl) (logMessageCount sl) (logDuration sl) v
    (log sl) (writer sl).

Definition set_log (v : option fd) (sl : SeanLogger) : SeanLogger :=
  mkSeanLogger (BaseLogName sl) (MaxLogFileCount sl) (MaxLogMessageCount sl)
    (MaxLogDuration sl) (logFileCount sl) (logMessageCount sl) (logDuration sl)
    (logStamp sl) v (writer sl).

Definition set_writer (v : option bufio.Writer) (sl : SeanLogger) : SeanLogger :=
  mkSeanLogger (BaseLogName sl) (MaxLogFileCount sl) (MaxLogMessageCount sl)
    (MaxLogDuration sl) (logFileCount sl) (logMessageCount sl) (logDuration sl)
    (logStamp sl) (log sl) v.

(** How a call of a method ends: it returns, or it panics on a nil pointer.
    The receiver is a pointer, so what the call did to it before a panic
    stays. *)
Inductive outcome : Type :=
| Returned (sl : SeanLogger) (w : World)
| Panicked (sl : SeanLogger) (w : World).

Definition logger_of (o : outcome) : SeanLogger :=
  match o with Returned sl _ | Panicked sl _ => sl end.

Definition world_of (o : outcome) : World :=
  match o with Returned _ w | Panicked _ w => w end.

Definition returned (o : outcome) : bool :=
  match o with Returned _ _ => true | Panicked _ _ => false end.

(** [bytes.Buffer], as far as [LogFileHandle] uses it. *)
Definition Buffer_WriteString (b s : string) : string := b ++ s.

Definition LogFileHandle (e : Env) (logBaseName : string) : string :=
  let dts := env_dts e in
  let nameBuffer := "" in
  let nameBuffer := Buffer_WriteString nameBuffer logBaseName in
  let nameBuffer := Buffer_WriteString nameBuffer " " in
  let nameBuffer := Buffer_WriteString nameBuffer dts in
  nameBuffer.

Definition StartLog (e : Env) (logBaseName : string) (sl : SeanLogger) (w : World) :
  option error * SeanLogger * World :=
  match os.Create e (LogFileHandle e logBaseName) w with
  | (_, Some err, w') => (Some err, sl, w')
  | (filePtr, None, w') =>
      let sl := set_BaseLogName logBaseName sl in
      let sl := set_logFileCount 0 sl in
      let sl := set_logDuration 0 sl in
      let sl := set_logStamp (time_Now_Unix e) sl in
      let sl := set_log filePtr sl in
      let sl := set_writer (Some (bufio.NewWriter (log sl))) sl in
      (None, sl, w')
  end.

(** The body is empty in the source: only a comment stands there. *)
Definition handleCreateError (sl : SeanLogger) (w : World) : SeanLogger * World :=
  (sl, w).

Definition newFile (e : Env) (sl : SeanLogger) (w : World) : outcome :=
  match writer sl with
  | None => Panicked sl w           (* sl.writer.Flush() on a nil writer *)
  | Some b =>
      match bufio.Flush b w with
      | (_, b', w) =>
          let sl := set_writer (Some b') sl in
          match os.Close (log sl) w with
          | (_, w) =>
              match os.Create e (LogFileHandle e (BaseLogName sl)) w with
              | (filePtr, err, w) =>
                  let (sl, w) :=
                    match err with
                    | Some _ => handleCreateError sl w
                    | None => (sl, w)
                    end in
                  let sl := set_log filePtr sl in
                  let sl := set_writer (Some (bufio.NewWriter (log sl))) sl in
                  Returned sl w
              end
          end
      end
  end.

(** [fmt.Fprintln(w, s)]: one [Write] of [s] and a newline; a nil writer pointer
    is dereferenced there, which panics. *)
Definition Fprintln (b : option bufio.Writer) (s : string) (w : World) :
  option (bufio.Writer * World) :=
  match b with
  | None => None
  | Some b' => Some (bufio.Write b' (s ++ newline) w)
  end.

Definition LogMessage (e : Env) (message : string) (sl : SeanLogger) (w : World) :
  outcome :=
  let now := time_Now_Unix e in
  match Fprintln (writer sl) message w with
  | None => Panicked sl w
  | Some (b, w) =>
      let sl := set_writer (Some b) sl in
      let sl := set_logMessageCount (Int.uint64 (logMessageCount sl + 1)) sl in
      let sl := set_logDuration (Int.int64 (logDuration sl + Int.int64 (now - logStamp sl))) sl in
      let sl := set_logStamp now sl in
      if (MaxLogMessageCount sl <? logMessageCount sl)
         || (MaxLogDuration sl <? logDuration sl)
      then newFile e sl w
      else Returned sl w
  end.

(** A sequence of calls of [LogMessage], each with its environment; it stops
    at the first panic. *)
Fixpoint LogMessages (calls : list (Env * string)) (sl : SeanLogger) (w : World) :
  outcome :=
  match calls with
  | [] => Returned sl w
  | (e, message) :: calls' =>
      match LogMessage e message sl w with
      | Returned sl' w' => LogMessages calls' sl' w'
      | Panicked sl' w' => Panicked sl' w'
      end
  end.

(** ** What can be seen from outside *)

Definition empty_World : World := mkWorld [] [] 3%nat [].

Definition is_create (c : syscall) : bool :=
  match c with SysCreate _ _ => true | _ => false end.

(** How many times [os.Create] was called. *)
Definition creates (w : World) : nat :=
  List.length (filter is_create (syscalls w)).

(** The names of the files created with success, oldest first. *)
Fixpoint created_names (cs : list syscall) : list string :=
  match cs with
  | [] => []
  | SysCreate name None :: cs' => name :: created_names cs'
  | _ :: cs' => created_names cs'
  end.

(** The files on disk whose name begins with [base]. *)
Definition files_of (base : string) (w : World) : list (string * string) :=
  filter (fun f => prefix base (fst f)) (disk w).

(** The rotation test of [LogMessage], on the counters of [sl]. *)
Definition over_limit (sl : SeanLogger) : Prop :=
  logMessageCount sl > MaxLogMessageCount sl \/ logDuration sl > MaxLogDuration sl.

(** The logger holds a file that is open. *)
Definition active_open (sl : SeanLogger) (w : World) : bool :=
  match log sl with
  | Some f => os.is_open f w
  | None => false
  end.

(** The configuration of a logger: the fields its user sets. *)
Definition config (sl : SeanLogger) : string * Z * Z * Z :=
  (BaseLogName sl, MaxLogFileCount sl, MaxLogMessageCount sl, MaxLogDuration sl).

(** The message counter and the duration as [LogMessage] updates them. *)
Definition bump (e : Env) (sl : SeanLogger) : Z * Z :=
  (Int.uint64 (logMessageCount sl + 1),
   Int.int64 (logDuration sl + Int.int64 (time_Now_Unix e - logStamp sl))).

(** ** The methods of the logger, as values *)

Inductive Method : Type :=
| M_StartLog (logBaseName : string)
| M_LogMessage (message : string)
| M_newFile
| M_handleCreateError.

Definition call (m : Method) (e : Env) (sl : SeanLogger) (w : World) : outcome :=
  match m with
  | M_StartLog logBaseName =>
      match StartLog e logBaseName sl w with (_, sl', w') => Returned sl' w' end
  | M_LogMessage message => LogMessage e message sl w
  | M_newFile => newFile e sl w
  | M_handleCreateError =>
      let (sl', w') := handleCreateError sl w in Returned sl' w'
  end.

(** What a close operation would do: called on a logger that holds an open
    file, it leaves the logger without one. *)
Definition closes_active_file (m : Method) : Prop :=
  forall e sl w,
    active_open sl w = true ->
    active_open (logger_of (call m e sl w)) (world_of (call m e sl w)) = false.

(** A second call changes neither the logger nor the files. *)
Definition second_call_is_noop (m : Method) : Prop :=
  forall e e' sl w,
    active_open sl w = true ->
    let o := call m e sl w in
    let o' := call m e' (logger_of o) (world_of o) in
    returned o' = true /\ logger_of o' = logger_of o /\
    disk (world_of o') = disk (world_of o).

(** ** Messages and the files they end up in *)

(** The bytes a sequence of messages makes: each message and a newline. *)
Fixpoint lines (messages : list string) : string :=
  match messages with
  | [] => ""
  | m :: messages' => m ++ newline ++ lines messages'
  end.

(** The names of the files created with success after the world was [w0]. *)
Definition produced (w0 w : World) : list string :=
  skipn (List.length (created_names (syscalls w0))) (created_names (syscalls w)).

(** The bytes the logger's writer still holds for the file [name]: its buffer
    when [name] is the file the writer is on, nothing otherwise. *)
Definition pending (sl : SeanLogger) (w : World) (name : string) : string :=
  match writer sl with
  | Some b =>
      match bufio.wr b with
      | Some f =>
          match os.lookup f (opened w) with
          | Some n => if String.eqb n name then bufio.buf b else ""
          | None => ""
          end
      | None => ""
      end
  | None => ""
  end.

(** The file [name] holds exactly the messages [seg], when the pending bytes
    of the writer are counted with it. *)
Definition holds (sl : SeanLogger) (w : World) (name : string) (seg : list string) :
  Prop :=
  exists c, os.content name (disk w) = Some c /\ c ++ pending sl w name = lines seg.

(** The same with the bytes on disk alone. *)
Definition holds_on_disk (w : World) (name : string) (seg : list string) : Prop :=
  os.content name (disk w) = Some (lines seg).

(** ** Relations between worlds *)

(** From [w] to [w'] system calls were made, none of them [os.Create]. *)
Definition quiet (w w' : World) : Prop :=
  exists l, syscalls w' = (syscalls w ++ l)%list /\ filter is_create l = [].

(** Every file on disk in [w] is on disk in [w'], at the same place; files
    may have been added after them. *)
Definition keeps_files (w w' : World) : Prop :=
  exists l, map fst (disk w') = (map fst (disk w) ++ l)%list.

(** From [w] to [w'] nothing was opened, closed or created, and no file but
    [name] was written. *)
Definition writes_only (name : string) (w w' : World) : Prop :=
  opened w' = opened w /\ next_fd w' = next_fd w /\
  forall n, n <> name -> os.content n (disk w') = os.content n (disk w).

(** The state of a logger that works: it writes through descriptor [f] to the
    file [cur], which holds the messages [curseg] when the buffer is counted;
    the files it filled before are [olds], newest first, each with its
    messages; [pre] are the names created before the logger started. *)
Definition tracks (pre : list string) (sl : SeanLogger) (w : World)
  (cur : string) (curseg : list string) (olds : list (string * list string)) : Prop :=
  exists f b c,
    log sl = Some f /\ writer sl = Some b /\
    bufio.wr b = Some f /\ bufio.err b = None /\
    os.lookup f (opened w) = Some cur /\
    os.content cur (disk w) = Some c /\ c ++ bufio.buf b = lines curseg /\
    Forall (fun ns => holds_on_disk w (fst ns) (snd ns)) olds /\
    ~ In cur (map fst olds) /\
    created_names (syscalls w) = (pre ++ rev (cur :: map fst olds))%list.

(** ** Runs of the logger *)

(** The clock reading of the last call of a run, [d] when the run is empty. *)
Fixpoint last_unix (calls : list (Env * string)) (d : Z) : Z :=
  match calls with
  | [] => d
  | (e, _) :: calls' => last_unix calls' (time_Now_Unix e)
  end.

(** The descriptors open in the world are the logger's own file and nothing
    else. *)
Definition sole_descriptor (sl : SeanLogger) (w : World) : Prop :=
  match log sl with
  | Some f => exists name, opened w = [(f, name)]
  | None => opened w = []
  end.

(** ** Scenarios *)

Module Scenario.

(** The clock stands still at second 100; the date strings differ. *)
Definition at_ (dts : string) : Env := mkEnv 100 dts None.

Definition disk_full (dts : string) : Env :=
  mkEnv 100 dts (Some (PathError "open" "no space left on device")).

(** A logger configured for at most [k] messages a file, an hour a file and
    [c] files. *)
Definition configured (c k : Z) : SeanLogger :=
  mkSeanLogger "" c k 3600 0 0 0 0 None None.

Definition started (c k : Z) : option error * SeanLogger * World :=
  StartLog (at_ "t0") "app" (configured c k) empty_World.

Definition four_messages : list (Env * string) :=
  [(at_ "t1", "a"); (at_ "t2", "b"); (at_ "t3", "c"); (at_ "t4", "d")].

Definition three_messages : list (Env * string) :=
  [(at_ "t1", "a"); (at_ "t2", "b"); (at_ "t3", "c")].

(** The number of files the rotation rule would give for [n] messages with
    at most [k] a file: the ceiling of [n / (k + 1)]. *)
Definition files_by_rule (n k : Z) : Z := (n + k) / (k + 1).

(** Two rollovers within one date string: both new files get one name. *)
Definition same_second : list (Env * string) :=
  [(at_ "t1", "a"); (at_ "t1", "b")].

(** [LogMessages] on a logger just started. *)
Definition run (c k : Z) (calls : list (Env * string)) : outcome :=
  match started c k with
  | (_, sl, w) => LogMessages calls sl w
  end.

End Scenario.

(** * Package [updater]

    [updater.go] compares a version number read from a local file with one
    fetched over HTTP.  The file system and the network answer through an
    [updater.Env]; what the code does to the outside (reading the file, the
    GET, closing the response body, sleeping, and the calls of the logger's
    [LogMessage], whose package is not part of these sources) is the list of
    events each function returns beside its result. *)

(** ** [strings.Trim] *)

Module strings.

Fixpoint in_cutset (c : ascii) (cutset : string) : bool :=
  match cutset with
  | EmptyString => false
  | String x cutset' => Ascii.eqb c x || in_cutset c cutset'
  end.

Fixpoint TrimLeft (s cutset : string) : string :=
  match s with
  | EmptyString => EmptyString
  | String x s' => if in_cutset x cutset then TrimLeft s' cutset else s
  end.

Fixpoint TrimRight (s cutset : string) : string :=
  match s with
  | EmptyString => EmptyString
  | String x s' =>
      match TrimRight s' cutset with
      | EmptyString =>
          if in_cutset x cutset then EmptyString else String x EmptyString
      | t => String x t
      end
  end.

(** [Trim(s, cutset)] for a cutset of ASCII bytes. *)
Definition Trim (s cutset : string) : string := TrimLeft (TrimRight s cutset) cutset.

End strings.

(** ** [strconv.ParseUint] *)

Module strconv.

Inductive NumErr : Type := ErrSyntax | ErrRange.

Definition maxUint64 : Z := 2 ^ 64 - 1.

(** [c | ('x' - 'X')] *)
Definition lower (c : Z) : Z := Z.lor c 32.

(** The value of a byte as a digit, as the switch of the loop computes it:
    decimal digits, then letters from 10 on. *)
Definition digit (c : ascii) : option Z :=
  let b := Z.of_nat (nat_of_ascii c) in
  if (48 <=? b) && (b <=? 57) then Some (b - 48)
  else if (97 <=? lower b) && (lower b <=? 122) then Some (lower b - 97 + 10)
  else None.

Definition cutoff (base : Z) : Z := maxUint64 / base + 1.

(** The loop of [ParseUint] over the bytes of the string, for a base between
    2 and 36 and 64 bits; [n] is the number read so far. *)
Fixpoint ParseUint_loop (base : Z) (s : string) (n : Z) : Z * option NumErr :=
  match s with
  | EmptyString => (n, None)
  | String c s' =>
      match digit c with
      | None => (0, Some ErrSyntax)
      | Some d =>
          if base <=? d then (0, Some ErrSyntax)
          else if cutoff base <=? n then (maxUint64, Some ErrRange)
          else
            let n := Int.uint64 (n * base) in
            let n1 := Int.uint64 (n + d) in
            if (n1 <? n) || (maxUint64 <? n1) then (maxUint64, Some ErrRange)
            else ParseUint_loop base s' n1
      end
  end.

(** [ParseUint(s, 10, 64)]. *)
Definition ParseUint (s : string) : Z * option NumErr :=
  match s with
  | EmptyString => (0, Some ErrSyntax)
  | _ => ParseUint_loop 10 s 0
  end.

End strconv.

(** The number a string of decimal digits writes; [None] for the empty string
    and for a string with another byte in it. *)
Definition is_digit (c : ascii) : bool :=
  (48 <=? Z.of_nat (nat_of_ascii c)) && (Z.of_nat (nat_of_ascii c) <=? 57).

Fixpoint decimal_from (s : string) (acc : Z) : option Z :=
  match s with
  | EmptyString => Some acc
  | String c s' =>
      if is_digit c then decimal_from s' (acc * 10 + (Z.of_nat (nat_of_ascii c) - 48))
      else None
  end.

Definition decimal (s : string) : option Z :=
  match s with
  | EmptyString => None
  | _ => decimal_from s 0
  end.

(** [n] newlines. *)
Fixpoint newlines (n : nat) : string :=
  match n with
  | O => ""
  | S n' => newline ++ newlines n'
  end.

(** ** The updater *)

Module updater.

Inductive uerror : Type :=
| IOError (msg : string)                                 (* file or network *)
| NumError (fn num : string) (err : strconv.NumErr).     (* strconv.NumError *)

(** A logger of package [logger], known by its handle only. *)
Definition Logger : Type := nat.

(** [config.Cfg], as far as the updater reads it. *)
Record Config : Type := mkConfig {
  CheckInFrequencySeconds : Z;    (* a time.Duration *)
  LocalVersionURI : string;
  RemoteVersionURI : string
}.

(** What [http.Get] and the read of the body give. *)
Inductive response : Type :=
| GetFails (e : uerror)
| ReadAllFails (e : uerror)
| Body (data : string).

Record Env : Type := mkEnv {
  Cfg : Config;
  FromVolatilityValue : string -> sum Logger uerror;
  AssetPath : string -> sum string uerror;
  ReadFile : string -> sum string uerror;
  Get : string -> response
}.

Inductive event : Type :=
| EvLog (l : Logger) (format : string) (args : list Z)
| EvSleep (d : Z)
| EvReadFile (path : string)
| EvGet (url : string)
| EvBodyClose.

Record Updater : Type := mkUpdater {
  localVersionURI : string;
  remoteVersionURI : string;
  lgr : Logger
}.

(** A computation with its events, oldest first. *)
Definition W (A : Type) : Type := (A * list event)%type.

Definition ret {A : Type} (a : A) : W A := (a, []).

Definition bind {A B : Type} (m : W A) (k : A -> W B) : W B :=
  match m with
  | (a, l) => match k a with (b, l') => (b, (l ++ l')%list) end
  end.

Definition emit (ev : event) : W unit := (tt, [ev]).

Notation "x <- m ;; k" := (bind m (fun x => k))
  (at level 61, m at next level, right associativity).
Notation "m ;;; k" := (bind m (fun _ => k))
  (at level 61, right associativity).

Definition LogMessage (l : Logger) (format : string) (args : list Z) : W unit :=
  emit (EvLog l format args).

Definition NewUpdater (env : Env) : option Updater * option uerror :=
  match FromVolatilityValue env "updater_package" with
  | inr loggerError => (None, Some loggerError)
  | inl localLogger =>
      match AssetPath env (LocalVersionURI (Cfg env)) with
      | inr pathErr => (None, Some pathErr)
      | inl localVersionPath =>
          (Some (mkUpdater localVersionPath (RemoteVersionURI (Cfg env)) localLogger),
           None)
      end
  end.

(** The part of [localVersion] and [remoteVersion] after the bytes are there. *)
Definition parse_version (l : Logger) (format : string) (bytes : string) :
  W (Z * option uerror) :=
  let s := strings.Trim bytes newline in
  match strconv.ParseUint s with
  | (_, Some castError) => ret (0, Some (NumError "ParseUint" s castError))
  | (version, None) => LogMessage l format [version] ;;; ret (version, None)
  end.

Definition localVersion (env : Env) (udr : Updater) : W (Z * option uerror) :=
  emit (EvReadFile (localVersionURI udr)) ;;;
  match ReadFile env (localVersionURI udr) with
  | inr err => ret (0, Some err)
  | inl bytes =>
      parse_version (lgr udr) "Successfully retrieved local version: %v" bytes
  end.

Definition remoteVersion (env : Env) (udr : Updater) : W (Z * option uerror) :=
  emit (EvGet (remoteVersionURI udr)) ;;;
  match Get env (remoteVersionURI udr) with
  | GetFails getError => ret (0, Some getError)
  | ReadAllFails readError =>
      (* the deferred resp.Body.Close() *)
      emit EvBodyClose ;;; ret (0, Some readError)
  | Body body =>
      r <- parse_version (lgr udr) "Successfully retrieved remote version: %v" body ;;
      emit EvBodyClose ;;; ret r
  end.

Definition doUpdate (udr : Updater) : W (option uerror) :=
  LogMessage (lgr udr) "performing an update" [] ;;; ret None.

Definition UpdateNecessary (env : Env) (udr : Updater) : W (bool * option uerror) :=
  r1 <- localVersion env udr ;;
  match r1 with
  | (_, Some localErr) => ret (false, Some localErr)
  | (localVersion, None) =>
      r2 <- remoteVersion env udr ;;
      match r2 with
      | (_, Some remoteErr) => ret (false, Some remoteErr)
      | (remoteVersion, None) =>
          (if remoteVersion <? localVersion then
             LogMessage (lgr udr)
               "Your version, %v, is higher than the remote: %v. Push your changes!"
               [localVersion; remoteVersion]
           else ret tt) ;;;
          (if localVersion =? remoteVersion then
             LogMessage (lgr udr)
               "Your version, %v, equals the remote: %v. Do some work!"
               [localVersion; remoteVersion]
           else ret tt) ;;;
          (if localVersion <? remoteVersion then
             LogMessage (lgr udr)
               "Your version, %v, is lower than the remote: %v. Pull the latest code and build it!"
               [localVersion; remoteVersion]
           else ret tt) ;;;
          ret (localVersion <? remoteVersion, None)
      end
  end.

Definition Run (env : Env) (udr : Updater) : W (option uerror) :=
  LogMessage (lgr udr) "waiting for updates. sleeping %v seconds"
    [CheckInFrequencySeconds (Cfg env)] ;;;
  emit (EvSleep (Int.int64 (CheckInFrequencySeconds (Cfg env) * 1000000000))) ;;;
  r1 <- localVersion env udr ;;
  r2 <- remoteVersion env udr ;;
  match r1, r2 with
  | (_, Some localError), _ => ret (Some localError)
  | (_, None), (_, Some remoteError) => ret (Some remoteError)
  | (local, None), (remote, None) =>
      (if local <? remote then
         LogMessage (lgr udr) "localVersion: %v" [local] ;;;
         LogMessage (lgr udr) "remoteVersion: %v" [remote] ;;;
         LogMessage (lgr udr) "Newer remote version available. Performing update." [] ;;;
         _ <- doUpdate udr ;; ret tt
       else ret tt) ;;;
      ret None
  end.

(** The three verdicts of [UpdateNecessary]. *)
Definition verdict_higher : string :=
  "Your version, %v, is higher than the remote: %v. Push your changes!".
Definition verdict_equal : string :=
  "Your version, %v, equals the remote: %v. Do some work!".
Definition verdict_lower : string :=
  "Your version, %v, is lower than the remote: %v. Pull the latest code and build it!".

(** An environment for examples: the file [version.no] holds [file], the GET
    answers [resp]. *)
Definition example_env (file : sum string uerror) (resp : response) : Env :=
  mkEnv (mkConfig 60 "version.no" "https://example.org/version.no")
        (fun _ => inl 7%nat) (fun p => inl p) (fun _ => file) (fun _ => resp).

Definition example_updater : Updater :=
  mkUpdater "version.no" "https://example.org/version.no" 7%nat.

End updater.

(** * Properties *)

(** ** Byte strings *)

Lemma append_assoc : forall a b c : string, (a ++ b) ++ c = a ++ (b ++ c).
Proof. induction a as [|x a IH]; intros b c; simpl; [|rewrite IH]; reflexivity. Qed.

Lemma append_nil_r : forall a : string, a ++ "" = a.
Proof. induction a as [|x a IH]; simpl; [|rewrite IH]; reflexivity. Qed.

Lemma length_append : forall a b : string,
  String.length (a ++ b) = (String.length a + String.length b)%nat.
Proof. induction a as [|x a IH]; intros b; simpl; [|rewrite IH]; reflexivity. Qed.

Lemma prefix_append : forall a b : string, prefix a (a ++ b) = true.
Proof.
  induction a as [|x a IH]; intros b; simpl.
  - destruct b; reflexivity.
  - destruct (ascii_dec x x) as [_|H]; [apply IH|contradiction].
Qed.

Lemma get_append : forall (a b : string) (c : ascii),
  get (String.length a) (a ++ String c b) = Some c.
Proof. induction a as [|x a IH]; intros b c; simpl; [reflexivity|apply IH]. Qed.

Lemma substring_all : forall s : string, substring 0 (String.length s) s = s.
Proof. induction s as [|x s IH]; simpl; [|rewrite IH]; reflexivity. Qed.

Lemma substring_more : forall (s : string) (n : nat),
  (String.length s <= n)%nat -> substring 0 n s = s.
Proof.
  induction s as [|x s IH]; intros n Hn; simpl.
  - destruct n; reflexivity.
  - destruct n as [|n]; simpl in Hn; [lia|]. rewrite IH by lia. reflexivity.
Qed.

Lemma substring_past : forall (s : string) (n : nat), substring n 0 s = "".
Proof.
  induction s as [|x s IH]; intros n; destruct n; simpl; try reflexivity.
  apply IH.
Qed.

Lemma take_drop : forall (s : string) (n : nat), take n s ++ drop n s = s.
Proof.
  unfold take, drop.
  induction s as [|x s IH]; intros n.
  - destruct n; reflexivity.
  - destruct n as [|n].
    + simpl. rewrite substring_all. reflexivity.
    + simpl. rewrite IH. reflexivity.
Qed.

Lemma drop_all : forall s : string, drop (String.length s) s = "".
Proof. intros s. unfold drop. rewrite Nat.sub_diag. apply substring_past. Qed.

Lemma drop_append : forall a b : string, drop (String.length a) (a ++ b) = b.
Proof.
  intros a b. unfold drop. rewrite length_append.
  replace (String.length a + String.length b - String.length a)%nat
    with (String.length b) by lia.
  induction a as [|x a IH]; simpl; [apply substring_all|exact IH].
Qed.

(** ** System calls made by the library layers *)

Lemma quiet_refl : forall w, quiet w w.
Proof. intros w. exists []. rewrite app_nil_r. split; reflexivity. Qed.

Lemma quiet_trans : forall w1 w2 w3, quiet w1 w2 -> quiet w2 w3 -> quiet w1 w3.
Proof.
  intros w1 w2 w3 (l1 & H1 & F1) (l2 & H2 & F2).
  exists (l1 ++ l2)%list. rewrite H2, H1, app_assoc. split; [reflexivity|].
  rewrite filter_app, F1, F2. reflexivity.
Qed.

Lemma quiet_creates : forall w w', quiet w w' -> creates w' = creates w.
Proof.
  intros w w' (l & H & F). unfold creates.
  rewrite H, filter_app, F, app_nil_r. reflexivity.
Qed.

Lemma created_names_app : forall a b,
  created_names (a ++ b)%list = (created_names a ++ created_names b)%list.
Proof.
  induction a as [|c a IH]; intros b; simpl; [reflexivity|].
  destruct c as [name [err|]|f data|f]; simpl; rewrite IH; reflexivity.
Qed.

Lemma created_names_quiet : forall l, filter is_create l = [] -> created_names l = [].
Proof.
  induction l as [|c l IH]; intros H; simpl in *; [reflexivity|].
  destruct c as [name err|f data|f]; simpl in H; try discriminate; apply IH, H.
Qed.

Lemma quiet_names : forall w w',
  quiet w w' -> created_names (syscalls w') = created_names (syscalls w).
Proof.
  intros w w' (l & H & F).
  rewrite H, created_names_app, (created_names_quiet l F), app_nil_r. reflexivity.
Qed.

Lemma quiet_one : forall d o n c w,
  is_create c = false -> quiet w (mkWorld d o n (syscalls w ++ [c])%list).
Proof. intros d o n c w H. exists [c]. simpl. rewrite H. split; reflexivity. Qed.

Lemma os_Write_quiet : forall f p w, quiet w (snd (os.Write f p w)).
Proof.
  intros f p w. unfold os.Write.
  destruct f as [f'|]; [|apply quiet_refl].
  destruct (os.lookup f' (opened w)); [|apply quiet_refl].
  apply quiet_one. reflexivity.
Qed.

Lemma os_Close_quiet : forall f w, quiet w (snd (os.Close f w)).
Proof.
  intros f w. unfold os.Close.
  destruct f as [f'|]; [|apply quiet_refl].
  destruct (os.lookup f' (opened w)); [|apply quiet_refl].
  apply quiet_one. reflexivity.
Qed.

Lemma os_Create_creates : forall e name w,
  creates (snd (os.Create e name w)) = S (creates w).
Proof.
  intros e name w. unfold os.Create.
  destruct (env_create_err e); simpl; unfold creates; simpl;
    rewrite filter_app, length_app; simpl; lia.
Qed.

Lemma Flush_quiet : forall b w, quiet w (snd (bufio.Flush b w)).
Proof.
  intros b w. unfold bufio.Flush.
  destruct (bufio.err b); [apply quiet_refl|].
  destruct (Nat.eqb (bufio.Buffered b) 0); [apply quiet_refl|].
  pose proof (os_Write_quiet (bufio.wr b) (bufio.buf b) w) as H.
  destruct (os.Write (bufio.wr b) (bufio.buf b) w) as [[n oe] w'].
  destruct oe; exact H.
Qed.

Lemma Write_loop_quiet : forall fuel b p w,
  quiet w (snd (bufio.Write_loop fuel b p w)).
Proof.
  induction fuel as [|fuel IH]; intros b p w; simpl; [apply quiet_refl|].
  destruct (bufio.loop_cond b p); [|apply quiet_refl].
  destruct (Nat.eqb (bufio.Buffered b) 0).
  - pose proof (os_Write_quiet (bufio.wr b) p w) as H.
    destruct (os.Write (bufio.wr b) p w) as [[n oe] w'].
    eapply quiet_trans; [exact H|apply IH].
  - match goal with |- context [bufio.Flush ?b1 w] =>
      pose proof (Flush_quiet b1 w) as H;
      destruct (bufio.Flush b1 w) as [[oe b2] w'] end.
    eapply quiet_trans; [exact H|apply IH].
Qed.

Lemma bufio_Write_quiet : forall b p w, quiet w (snd (bufio.Write b p w)).
Proof.
  intros b p w. unfold bufio.Write.
  pose proof (Write_loop_quiet 2 b p w) as H.
  destruct (bufio.Write_loop 2 b p w) as [[b' p'] w'].
  destruct (bufio.err b'); exact H.
Qed.

(** ** The rollover routine *)

(** With a writer to flush, [newFile] returns and has called [os.Create] once;
    the counters are the ones it was entered with. *)
Lemma newFile_spec : forall e sl w b,
  writer sl = Some b ->
  exists sl' w',
    newFile e sl w = Returned sl' w' /\
    creates w' = S (creates w) /\
    config sl' = config sl /\
    logFileCount sl' = logFileCount sl /\
    logMessageCount sl' = logMessageCount sl /\
    logDuration sl' = logDuration sl /\
    logStamp sl' = logStamp sl /\
    writer sl' = Some (bufio.NewWriter (log sl')).
Proof.
  intros e sl w b Hb. unfold newFile. rewrite Hb.
  pose proof (quiet_creates _ _ (Flush_quiet b w)) as HF.
  destruct (bufio.Flush b w) as [[oe b'] w1]. simpl in HF.
  pose proof (quiet_creates _ _ (os_Close_quiet (log (set_writer (Some b') sl)) w1)) as HC.
  destruct (os.Close _ w1) as [ce w2]. simpl in HC.
  pose proof (os_Create_creates e
    (LogFileHandle e (BaseLogName (set_writer (Some b') sl))) w2) as HK.
  destruct (os.Create e _ w2) as [[filePtr er] w3]. simpl in HK.
  destruct er; simpl; eexists; eexists; (split; [reflexivity|]);
    repeat split; simpl; congruence.
Qed.

Lemma newFile_panics : forall e sl w,
  writer sl = None -> newFile e sl w = Panicked sl w.
Proof. intros e sl w H. unfold newFile. rewrite H. reflexivity. Qed.

(** ** One call of [LogMessage] *)

Lemma LogMessage_spec : forall e message sl w b,
  writer sl = Some b ->
  exists sl' w',
    LogMessage e message sl w = Returned sl' w' /\
    config sl' = config sl /\
    (logMessageCount sl', logDuration sl') = bump e sl /\
    logStamp sl' = time_Now_Unix e /\
    (exists b', writer sl' = Some b') /\
    (over_limit sl' -> creates w' = S (creates w)) /\
    (~ over_limit sl' -> creates w' = creates w /\ log sl' = log sl).
Proof.
  intros e message sl w b Hb. unfold LogMessage, Fprintln. rewrite Hb.
  pose proof (quiet_creates _ _ (bufio_Write_quiet b (message ++ newline) w)) as HW.
  destruct (bufio.Write b (message ++ newline) w) as [b1 w1]. simpl in HW.
  set (sl4 := set_logStamp _ _).
  assert (Hov : over_limit sl4 <->
    (MaxLogMessageCount sl4 <? logMessageCount sl4)
    || (MaxLogDuration sl4 <? logDuration sl4) = true).
  { unfold over_limit. rewrite orb_true_iff, !Z.ltb_lt. lia. }
  destruct ((MaxLogMessageCount sl4 <? logMessageCount sl4)
            || (MaxLogDuration sl4 <? logDuration sl4)) eqn:Hc.
  - destruct (newFile_spec e sl4 w1 b1 eq_refl)
      as (sl' & w' & Hn & Hcr & Hcfg & _ & Hmc & Hd & Hs & Hwr).
    exists sl', w'. split; [exact Hn|].
    assert (Ho : over_limit sl').
    { unfold over_limit. rewrite Hmc, Hd.
      unfold config in Hcfg. injection Hcfg as _ _ H3 H4. rewrite H3, H4.
      apply Hov. reflexivity. }
    split; [rewrite Hcfg; reflexivity|].
    split; [rewrite Hmc, Hd; reflexivity|].
    split; [rewrite Hs; reflexivity|].
    split; [eexists; exact Hwr|]. split.
    + intros _. rewrite Hcr, HW. reflexivity.
    + intros H. contradiction.
  - exists sl4, w1. split; [reflexivity|].
    assert (Ho : ~ over_limit sl4).
    { intros H. apply Hov in H. discriminate. }
    split; [reflexivity|]. split; [reflexivity|].
    split; [reflexivity|]. split; [eexists; reflexivity|]. split.
    + intros H. contradiction.
    + intros _. split; [exact HW|reflexivity].
Qed.

Lemma LogMessage_panics : forall e message sl w,
  writer sl = None -> LogMessage e message sl w = Panicked sl w.
Proof. intros e message sl w H. unfold LogMessage, Fprintln. rewrite H. reflexivity. Qed.

(** ** The claims on single calls *)

(** C2: a call of [LogMessage] on a logger with a writer returns, and it has
    run the rollover routine (one more [os.Create]) exactly when, after the
    write, the message counter is strictly above [MaxLogMessageCount] or the
    tracked duration strictly above [MaxLogDuration]; counters at or below
    their thresholds, equality included, leave the file as it is. *)
Theorem LogMessage_rotates_iff : forall e message sl w b,
  writer sl = Some b ->
  exists sl' w',
    LogMessage e message sl w = Returned sl' w' /\
    (logMessageCount sl', logDuration sl') = bump e sl /\
    (creates w' = S (creates w) <-> over_limit sl') /\
    (creates w' = creates w <-> ~ over_limit sl') /\
    (logMessageCount sl' <= MaxLogMessageCount sl' ->
     logDuration sl' <= MaxLogDuration sl' ->
     creates w' = creates w /\ log sl' = log sl).
Proof.
  intros e message sl w b Hb.
  destruct (LogMessage_spec e message sl w b Hb)
    as (sl' & w' & Hr & _ & Hbump & _ & _ & Hyes & Hno).
  exists sl', w'. split; [exact Hr|]. split; [exact Hbump|].
  assert (Hdec : over_limit sl' \/ ~ over_limit sl').
  { unfold over_limit. lia. }
  split; [|split].
  - split; [|exact Hyes].
    intros Hc. destruct Hdec as [H|H]; [exact H|].
    apply Hno in H. lia.
  - split; [|apply Hno].
    intros Hc H. apply Hyes in H. lia.
  - intros H1 H2. apply Hno. unfold over_limit. lia.
Qed.

Lemma LogMessage_rotates_iff_witness :
  exists sl' w',
    LogMessage (Scenario.at_ "t1") "a" (snd (fst (Scenario.started 2 0)))
      (snd (Scenario.started 2 0)) = Returned sl' w' /\
    (creates w' = 2%nat <-> over_limit sl').
Proof.
  destruct (LogMessage_rotates_iff (Scenario.at_ "t1") "a"
              (snd (fst (Scenario.started 2 0))) (snd (Scenario.started 2 0))
              (bufio.NewWriter (Some 3%nat)) eq_refl)
    as (sl' & w' & Hr & _ & Hyes & _).
  exists sl', w'. split; [exact Hr|exact Hyes].
Defined.

(** C10: whatever the logger and the message, and whether the call returns or
    panics, [LogMessage] with the rollover it may run leaves [BaseLogName],
    [MaxLogFileCount], [MaxLogMessageCount] and [MaxLogDuration] as they
    were. *)
Theorem LogMessage_keeps_config : forall e message sl w,
  config (logger_of (LogMessage e message sl w)) = config sl.
Proof.
  intros e message sl w.
  destruct (writer sl) as [b|] eqn:Hb.
  - destruct (LogMessage_spec e message sl w b Hb) as (sl' & w' & Hr & Hcfg & _).
    rewrite Hr. exact Hcfg.
  - rewrite LogMessage_panics by exact Hb. reflexivity.
Qed.

(** C7: the name [LogFileHandle] makes is the base name, one space and the
    date string of the moment; so it begins with the base name, has a space
    right after it, and what follows the space is the date string. *)
Theorem LogFileHandle_format : forall e logBaseName,
  LogFileHandle e logBaseName = logBaseName ++ " " ++ env_dts e /\
  prefix logBaseName (LogFileHandle e logBaseName) = true /\
  get (String.length logBaseName) (LogFileHandle e logBaseName) = Some " "%char /\
  drop (String.length logBaseName + 1) (LogFileHandle e logBaseName) = env_dts e.
Proof.
  intros e logBaseName.
  assert (H : LogFileHandle e logBaseName = logBaseName ++ " " ++ env_dts e).
  { unfold LogFileHandle, Buffer_WriteString. simpl. apply append_assoc. }
  rewrite H. split; [reflexivity|]. split; [apply prefix_append|].
  split; [apply get_append|].
  rewrite <- append_assoc.
  replace (String.length logBaseName + 1)%nat
    with (String.length (logBaseName ++ " ")).
  - apply drop_append.
  - rewrite length_append. reflexivity.
Qed.

(** ** [StartLog] *)

Lemma StartLog_success : forall e logBaseName sl w,
  env_create_err e = None ->
  exists sl' w',
    StartLog e logBaseName sl w = (None, sl', w') /\
    BaseLogName sl' = logBaseName /\
    logFileCount sl' = 0 /\
    logDuration sl' = 0 /\
    logStamp sl' = time_Now_Unix e /\
    logMessageCount sl' = logMessageCount sl /\
    log sl' = Some (next_fd w) /\
    writer sl' = Some (bufio.NewWriter (Some (next_fd w))) /\
    active_open sl' w' = true.
Proof.
  intros e logBaseName sl w He. unfold StartLog, os.Create. rewrite He.
  eexists. eexists. split; [reflexivity|].
  unfold active_open, os.is_open. simpl. rewrite Nat.eqb_refl.
  repeat split.
Qed.

(** C9: when [os.Create] fails, [StartLog] returns the error it got and the
    receiver is the one it was called on, field for field; the files and the
    open descriptors are untouched as well. *)
Theorem StartLog_failure_atomic : forall e logBaseName sl w err,
  env_create_err e = Some err ->
  exists w',
    StartLog e logBaseName sl w = (Some err, sl, w') /\
    disk w' = disk w /\ opened w' = opened w.
Proof.
  intros e logBaseName sl w err He. unfold StartLog, os.Create. rewrite He.
  eexists. split; [reflexivity|]. split; reflexivity.
Qed.

Lemma StartLog_failure_atomic_witness :
  exists w',
    StartLog (Scenario.disk_full "t0") "app" (Scenario.configured 2 10) empty_World
    = (Some (PathError "open" "no space left on device"),
       Scenario.configured 2 10, w') /\
    disk w' = [] /\ opened w' = [].
Proof.
  exact (StartLog_failure_atomic (Scenario.disk_full "t0") "app"
           (Scenario.configured 2 10) empty_World
           (PathError "open" "no space left on device") eq_refl).
Defined.

(** C5: [StartLog] on a logger that has logged three messages: the file is
    created, the duration is 0 and the stamp is the clock's second, but the
    message counter still reads 3. *)
Theorem StartLog_leaves_message_count :
  exists sl w sl' w',
    Scenario.run 2 10 Scenario.three_messages = Returned sl w /\
    StartLog (Scenario.at_ "t9") "app" sl w = (None, sl', w') /\
    logMessageCount sl' = 3 /\
    logDuration sl' = 0 /\ logFileCount sl' = 0 /\ logStamp sl' = 100.
Proof.
  do 4 eexists. split; [vm_compute; reflexivity|].
  split; [vm_compute; reflexivity|]. repeat split.
Qed.

(** ** Runs *)

Lemma uint64_small : forall z, 0 <= z < Int.modulus -> Int.uint64 z = z.
Proof. intros z H. apply Z.mod_small, H. Qed.

Lemma int64_small : forall z, Int.is_int64 z -> Int.int64 z = z.
Proof.
  intros z H. unfold Int.int64, Int.is_int64, Int.half, Int.modulus in *.
  rewrite Z.mod_small; lia.
Qed.

(** X1: the clock stands still and the duration is within its limit, so only
    the message counter can trigger a rollover.  The counter is never reset:
    once it is above [MaxLogMessageCount] every message rolls over. *)
Lemma rollovers_without_reset : forall calls sl w b,
  writer sl = Some b ->
  0 <= logMessageCount sl ->
  logMessageCount sl + Z.of_nat (List.length calls) < Int.modulus ->
  Int.is_int64 (logStamp sl) ->
  Int.is_int64 (logDuration sl) ->
  logDuration sl <= MaxLogDuration sl ->
  Forall (fun c : Env * string => env_unix (fst c) = logStamp sl) calls ->
  exists sl' w',
    LogMessages calls sl w = Returned sl' w' /\
    logMessageCount sl' = logMessageCount sl + Z.of_nat (List.length calls) /\
    Z.of_nat (creates w') =
      Z.of_nat (creates w) +
      Z.max 0 (Z.min (Z.of_nat (List.length calls))
                 (logMessageCount sl + Z.of_nat (List.length calls)
                  - MaxLogMessageCount sl)).
Proof.
  induction calls as [|[e message] calls IH];
    intros sl w b Hb Hc0 Hc1 Hst Hd Hdl Hclk.
  - exists sl, w. simpl. split; [reflexivity|]. split; lia.
  - inversion Hclk as [|x xs He Hclk']; subst. simpl in He.
    change (List.length ((e, message) :: calls)) with (S (List.length calls)) in *.
    rewrite Nat2Z.inj_succ in *.
    destruct (LogMessage_spec e message sl w b Hb)
      as (sl1 & w1 & HL & Hcfg & Hbump & Hs1 & (b1 & Hb1) & Hyes & Hno).
    unfold config in Hcfg. injection Hcfg as _ _ Hk Hm.
    assert (Hnow : time_Now_Unix e = logStamp sl).
    { unfold time_Now_Unix. rewrite He. apply int64_small, Hst. }
    unfold bump in Hbump. rewrite Hnow, Z.sub_diag in Hbump.
    change (Int.int64 0) with 0 in Hbump. rewrite Z.add_0_r in Hbump.
    rewrite uint64_small in Hbump by lia.
    rewrite int64_small in Hbump by exact Hd.
    injection Hbump as Hc' Hd'.
    destruct (IH sl1 w1 b1 Hb1) as (sl' & w' & HR & Hcount & Hcr).
    + lia.
    + lia.
    + rewrite Hs1, Hnow. exact Hst.
    + rewrite Hd'. exact Hd.
    + rewrite Hd', Hm. exact Hdl.
    + rewrite Hs1, Hnow. exact Hclk'.
    + exists sl', w'. cbn [LogMessages]. rewrite HL.
      split; [exact HR|]. split; [lia|].
      rewrite Hcr, Hc', Hk.
      destruct (Z_gt_dec (logMessageCount sl + 1) (MaxLogMessageCount sl)) as [G|G].
      * assert (Ho : over_limit sl1).
        { unfold over_limit. left. rewrite Hc', Hk. exact G. }
        rewrite (Hyes Ho). lia.
      * assert (Ho : ~ over_limit sl1).
        { unfold over_limit. rewrite Hc', Hd', Hk, Hm. lia. }
        destruct (Hno Ho) as (Hsame & _). rewrite Hsame. lia.
Qed.

(** C1: at most one message a file, four messages: the rule gives two files;
    the logger rolls over after the second, the third and the fourth message,
    four files are created in all, and the message counter reads 4 at the end
    (2 right after the first rollover), not 0. *)
Theorem rollover_keeps_message_count :
  Scenario.files_by_rule 4 1 = 2 /\
  (exists sl w,
     Scenario.run 2 1 (firstn 2 Scenario.four_messages) = Returned sl w /\
     creates w = 2%nat /\ logMessageCount sl = 2) /\
  (exists sl w,
     Scenario.run 2 1 Scenario.four_messages = Returned sl w /\
     logMessageCount sl = 4 /\
     creates w = 4%nat /\
     disk w = [("app t0", lines ["a"; "b"]); ("app t2", lines ["c"]);
               ("app t3", lines ["d"]); ("app t4", "")]).
Proof.
  split; [reflexivity|]. split.
  - do 2 eexists. split; [vm_compute; reflexivity|]. split; reflexivity.
  - do 2 eexists. split; [vm_compute; reflexivity|]. repeat split.
Qed.

(** C3: at most one file to keep, a rollover on every message, three
    messages: four files of the base name are on disk after the last
    rollover, and no system call of the run removes a file. *)
Theorem rollover_never_prunes :
  exists sl w,
    Scenario.run 1 0 Scenario.three_messages = Returned sl w /\
    MaxLogFileCount sl = 1 /\
    map fst (files_of (BaseLogName sl) w) = ["app t0"; "app t1"; "app t2"; "app t3"] /\
    syscalls w =
      [SysCreate "app t0" None;
       SysWrite 3%nat (lines ["a"]); SysClose 3%nat; SysCreate "app t1" None;
       SysWrite 4%nat (lines ["b"]); SysClose 4%nat; SysCreate "app t2" None;
       SysWrite 5%nat (lines ["c"]); SysClose 5%nat; SysCreate "app t3" None].
Proof.
  do 2 eexists. split; [vm_compute; reflexivity|]. repeat split.
Qed.

(** C6: the disk is full at the first rollover.  [LogMessage] returns, the
    logger is left with a nil file and a writer on it, and the system calls of
    the run are the flush, the close and the failed create: the error handler
    has done nothing.  The next message triggers a rollover that succeeds; its
    text reaches no file. *)
Theorem failed_rollover_is_silent :
  exists sl w sl' w' sl'' w'',
    Scenario.started 2 0 = (None, sl, w) /\
    LogMessage (Scenario.disk_full "t1") "a" sl w = Returned sl' w' /\
    log sl' = None /\
    writer sl' = Some (bufio.NewWriter None) /\
    handleCreateError sl' w' = (sl', w') /\
    syscalls w' =
      [SysCreate "app t0" None; SysWrite 3%nat (lines ["a"]); SysClose 3%nat;
       SysCreate "app t1" (Some (PathError "open" "no space left on device"))] /\
    LogMessage (Scenario.at_ "t2") "lost" sl' w' = Returned sl'' w'' /\
    disk w'' = [("app t0", lines ["a"]); ("app t2", "")] /\
    writer sl'' = Some (bufio.NewWriter (Some 4%nat)).
Proof.
  do 6 eexists. split; [vm_compute; reflexivity|].
  split; [vm_compute; reflexivity|].
  do 4 (split; [reflexivity|]).
  split; [vm_compute; reflexivity|]. split; reflexivity.
Qed.

(** ** Files and descriptors *)

Lemma content_append_to_same : forall n p d c,
  os.content n d = Some c -> os.content n (os.append_to n p d) = Some (c ++ p).
Proof.
  intros n p. induction d as [|[m x] d IH]; intros c H; simpl in *; [discriminate|].
  destruct (String.eqb_spec n m) as [E|E]; simpl.
  - rewrite <- E, String.eqb_refl. congruence.
  - apply String.eqb_neq in E. rewrite E. apply IH, H.
Qed.

Lemma content_append_to_other : forall n n' p d,
  n' <> n -> os.content n' (os.append_to n p d) = os.content n' d.
Proof.
  intros n n' p d Hn. induction d as [|[m x] d IH]; simpl; [reflexivity|].
  destruct (String.eqb_spec n m) as [E|E]; simpl.
  - subst m. apply String.eqb_neq in Hn. rewrite Hn. reflexivity.
  - rewrite IH. reflexivity.
Qed.

Lemma content_truncate_same : forall n d, os.content n (os.truncate n d) = Some "".
Proof.
  intros n. induction d as [|[m x] d IH]; simpl.
  - rewrite String.eqb_refl. reflexivity.
  - destruct (String.eqb_spec n m) as [E|E]; simpl.
    + rewrite <- E, String.eqb_refl. reflexivity.
    + apply String.eqb_neq in E. rewrite E. exact IH.
Qed.

Lemma content_truncate_other : forall n n' d,
  n' <> n -> os.content n' (os.truncate n d) = os.content n' d.
Proof.
  intros n n' d Hn. induction d as [|[m x] d IH]; simpl.
  - apply String.eqb_neq in Hn. rewrite Hn. reflexivity.
  - destruct (String.eqb_spec n m) as [E|E]; simpl.
    + subst m. apply String.eqb_neq in Hn. rewrite Hn. reflexivity.
    + rewrite IH. reflexivity.
Qed.

Lemma writes_only_refl : forall name w, writes_only name w w.
Proof. intros name w. repeat split. Qed.

Lemma writes_only_trans : forall name w1 w2 w3,
  writes_only name w1 w2 -> writes_only name w2 w3 -> writes_only name w1 w3.
Proof.
  intros name w1 w2 w3 (O1 & N1 & C1) (O2 & N2 & C2).
  split; [congruence|]. split; [congruence|].
  intros n Hn. rewrite C2, C1 by exact Hn. reflexivity.
Qed.

Lemma os_Write_ok : forall f p w name c,
  os.lookup f (opened w) = Some name ->
  os.content name (disk w) = Some c ->
  exists w',
    os.Write (Some f) p w = (String.length p, None, w') /\
    os.content name (disk w') = Some (c ++ p) /\
    writes_only name w w'.
Proof.
  intros f p w name c Hf Hc. unfold os.Write. rewrite Hf.
  eexists. split; [reflexivity|]. simpl. split.
  - apply content_append_to_same, Hc.
  - split; [reflexivity|]. split; [reflexivity|].
    intros n Hn. apply content_append_to_other, Hn.
Qed.

(** ** The buffered writer on an open file *)

Lemma length_zero : forall s : string, String.length s = O -> s = "".
Proof. intros [|x s] H; [reflexivity|discriminate]. Qed.

Lemma Flush_ok : forall b w f name c,
  bufio.wr b = Some f -> bufio.err b = None ->
  os.lookup f (opened w) = Some name ->
  os.content name (disk w) = Some c ->
  exists w',
    bufio.Flush b w = (None, bufio.mkWriter (Some f) "" None, w') /\
    os.content name (disk w') = Some (c ++ bufio.buf b) /\
    writes_only name w w'.
Proof.
  intros [wr0 buf0 err0] w f name c Hwr Herr Hf Hc. simpl in *. subst wr0 err0.
  unfold bufio.Flush, bufio.Buffered. cbn [bufio.err bufio.buf bufio.wr].
  destruct (Nat.eqb_spec (String.length buf0) 0) as [E|E].
  - apply length_zero in E. subst buf0. exists w.
    split; [reflexivity|]. rewrite append_nil_r.
    split; [exact Hc|apply writes_only_refl].
  - destruct (os_Write_ok f buf0 w name c Hf Hc) as (w' & HW & Hc' & Hfr).
    rewrite HW. exists w'. split; [reflexivity|]. split; assumption.
Qed.

Lemma Write_loop_ok : forall fuel b p w f name c,
  bufio.wr b = Some f -> bufio.err b = None ->
  os.lookup f (opened w) = Some name ->
  os.content name (disk w) = Some c ->
  exists b' p' w' c',
    bufio.Write_loop fuel b p w = (b', p', w') /\
    bufio.wr b' = Some f /\ bufio.err b' = None /\
    os.content name (disk w') = Some c' /\
    c' ++ bufio.buf b' ++ p' = c ++ bufio.buf b ++ p /\
    writes_only name w w'.
Proof.
  induction fuel as [|fuel IH]; intros b p w f name c Hwr Herr Hf Hc; simpl.
  - exists b, p, w, c. repeat split; assumption.
  - destruct (bufio.loop_cond b p).
    2:{ exists b, p, w, c. repeat split; assumption. }
    destruct (Nat.eqb_spec (bufio.Buffered b) 0) as [E|E].
    + apply length_zero in E. rewrite Hwr.
      destruct (os_Write_ok f p w name c Hf Hc) as (w1 & HW & Hc1 & Hfr).
      rewrite HW.
      destruct (IH (bufio.mkWriter (Some f) (bufio.buf b) None)
                   (drop (String.length p) p) w1 f name (c ++ p)
                   eq_refl eq_refl)
        as (b' & p' & w' & c' & HL & Hwr' & Herr' & Hc' & Heq & Hfr').
      { destruct Hfr as (O1 & _). rewrite O1. exact Hf. }
      { exact Hc1. }
      exists b', p', w', c'. split; [exact HL|].
      split; [exact Hwr'|]. split; [exact Herr'|]. split; [exact Hc'|].
      split; [|eapply writes_only_trans; eassumption].
      rewrite Heq. simpl. rewrite drop_all, E. simpl.
      rewrite append_nil_r. reflexivity.
    + set (n := Nat.min (bufio.Available b) (String.length p)).
      set (b1 := bufio.mkWriter (bufio.wr b) (bufio.buf b ++ take n p) (bufio.err b)).
      destruct (Flush_ok b1 w f name c Hwr Herr Hf Hc) as (w1 & HF & Hc1 & Hfr).
      rewrite HF.
      destruct (IH (bufio.mkWriter (Some f) "" None) (drop n p) w1 f name
                   (c ++ bufio.buf b1) eq_refl eq_refl)
        as (b' & p' & w' & c' & HL & Hwr' & Herr' & Hc' & Heq & Hfr').
      { destruct Hfr as (O1 & _). rewrite O1. exact Hf. }
      { exact Hc1. }
      exists b', p', w', c'. split; [exact HL|].
      split; [exact Hwr'|]. split; [exact Herr'|]. split; [exact Hc'|].
      split; [|eapply writes_only_trans; eassumption].
      rewrite Heq. subst b1. simpl.
      rewrite !append_assoc, take_drop. reflexivity.
Qed.

(** *** The loop of [Write] is over after two rounds *)

Lemma Write_loop_stop : forall fuel b p w,
  bufio.loop_cond b p = false -> bufio.Write_loop fuel b p w = (b, p, w).
Proof. intros [|fuel] b p w H; simpl; [|rewrite H]; reflexivity. Qed.

Lemma loop_cond_after_write : forall b p w,
  match os.Write (bufio.wr b) p w with
  | (n, e, _) =>
      bufio.loop_cond (bufio.mkWriter (bufio.wr b) (bufio.buf b) e) (drop n p) = false
  end.
Proof.
  intros b p w. unfold os.Write, bufio.loop_cond.
  destruct (bufio.wr b) as [f|]; simpl; [|apply andb_false_r].
  destruct (os.lookup f (opened w)); simpl; [|apply andb_false_r].
  rewrite drop_all. simpl. rewrite Nat.ltb_irrefl || reflexivity.
Qed.

Lemma Write_loop_from_empty : forall fuel b p w,
  bufio.Buffered b = O ->
  match bufio.Write_loop (S fuel) b p w with
  | (b', p', _) => bufio.loop_cond b' p' = false
  end.
Proof.
  intros fuel b p w Hb. simpl.
  destruct (bufio.loop_cond b p) eqn:Hc; [|exact Hc].
  rewrite Hb. simpl.
  pose proof (loop_cond_after_write b p w) as H.
  destruct (os.Write (bufio.wr b) p w) as [[n e] w'].
  rewrite Write_loop_stop by exact H. exact H.
Qed.

Lemma Write_loop_S : forall fuel b p w,
  bufio.Write_loop (S fuel) b p w =
  if bufio.loop_cond b p then
    if Nat.eqb (bufio.Buffered b) 0 then
      match os.Write (bufio.wr b) p w with
      | (n, e, w') =>
          bufio.Write_loop fuel (bufio.mkWriter (bufio.wr b) (bufio.buf b) e)
            (drop n p) w'
      end
    else
      let n := Nat.min (bufio.Available b) (String.length p) in
      match bufio.Flush
              (bufio.mkWriter (bufio.wr b) (bufio.buf b ++ take n p) (bufio.err b)) w
      with
      | (_, b2, w') => bufio.Write_loop fuel b2 (drop n p) w'
      end
  else (b, p, w).
Proof. reflexivity. Qed.

(** A flush of a writer without error empties the buffer or sets the error. *)
Lemma Flush_result : forall b w,
  bufio.err b = None ->
  match bufio.Flush b w with
  | (_, b2, _) => bufio.is_nil (bufio.err b2) = false \/ bufio.Buffered b2 = O
  end.
Proof.
  intros b w He. unfold bufio.Flush. rewrite He.
  destruct (Nat.eqb_spec (bufio.Buffered b) 0) as [E|E]; [right; exact E|].
  destruct (os.Write (bufio.wr b) (bufio.buf b) w) as [[k [x|]] w1].
  - left. reflexivity.
  - right. reflexivity.
Qed.

Lemma Write_loop_done : forall b p w,
  match bufio.Write_loop 2 b p w with
  | (b', p', _) => bufio.loop_cond b' p' = false
  end.
Proof.
  intros b p w.
  destruct (Nat.eqb_spec (bufio.Buffered b) 0) as [E|E].
  - apply Write_loop_from_empty, E.
  - rewrite Write_loop_S.
    destruct (bufio.loop_cond b p) eqn:Hc; [|exact Hc].
    apply Nat.eqb_neq in E. rewrite E. cbv zeta.
    set (b1 := bufio.mkWriter _ _ _).
    assert (He : bufio.err b1 = None).
    { unfold bufio.loop_cond in Hc. apply andb_true_iff in Hc.
      destruct Hc as [_ Hn]. simpl. destruct (bufio.err b); [discriminate|reflexivity]. }
    pose proof (Flush_result b1 w He) as H.
    destruct (bufio.Flush b1 w) as [[oe b2] w1].
    destruct H as [H|H].
    + rewrite Write_loop_stop; unfold bufio.loop_cond; rewrite H; apply andb_false_r.
    + apply (Write_loop_from_empty 0), H.
Qed.

(** More fuel than two changes nothing. *)
Lemma Write_loop_fuel : forall k b p w,
  bufio.Write_loop (2 + k) b p w = bufio.Write_loop 2 b p w.
Proof.
  assert (Hsplit : forall n k b p w,
    bufio.Write_loop (n + k) b p w =
    match bufio.Write_loop n b p w with
    | (b', p', w') => bufio.Write_loop k b' p' w'
    end).
  { induction n as [|n IH]; intros k b p w; simpl; [reflexivity|].
    destruct (bufio.loop_cond b p) eqn:Hc.
    - destruct (Nat.eqb (bufio.Buffered b) 0).
      + destruct (os.Write (bufio.wr b) p w) as [[m e] w']. apply IH.
      + destruct (bufio.Flush _ w) as [[oe b2] w']. apply IH.
    - symmetry. apply Write_loop_stop, Hc. }
  intros k b p w. rewrite Hsplit.
  pose proof (Write_loop_done b p w) as H.
  destruct (bufio.Write_loop 2 b p w) as [[b' p'] w'].
  apply Write_loop_stop, H.
Qed.

Lemma bufio_Write_ok : forall b p w f name c,
  bufio.wr b = Some f -> bufio.err b = None ->
  os.lookup f (opened w) = Some name ->
  os.content name (disk w) = Some c ->
  exists b' w' c',
    bufio.Write b p w = (b', w') /\
    bufio.wr b' = Some f /\ bufio.err b' = None /\
    os.content name (disk w') = Some c' /\
    c' ++ bufio.buf b' = c ++ bufio.buf b ++ p /\
    writes_only name w w'.
Proof.
  intros b p w f name c Hwr Herr Hf Hc. unfold bufio.Write.
  destruct (Write_loop_ok 2 b p w f name c Hwr Herr Hf Hc)
    as (b' & p' & w' & c' & HL & Hwr' & Herr' & Hc' & Heq & Hfr).
  pose proof (Write_loop_done b p w) as Hdone.
  rewrite HL in *. rewrite Herr'.
  eexists. exists w', c'. split; [reflexivity|]. simpl.
  split; [exact Hwr'|]. split; [reflexivity|]. split; [exact Hc'|].
  split; [|exact Hfr].
  rewrite <- Heq. unfold take. rewrite substring_more; [reflexivity|].
  unfold bufio.loop_cond in Hdone. rewrite Herr' in Hdone. simpl in Hdone.
  rewrite andb_true_r in Hdone. apply Nat.ltb_ge in Hdone. exact Hdone.
Qed.

(** ** A working logger keeps track of every message *)

Lemma lines_app : forall a m, lines (a ++ [m])%list = lines a ++ m ++ newline.
Proof.
  induction a as [|x a IH]; intros m; cbn [lines List.app].
  - reflexivity.
  - rewrite IH, !append_assoc. reflexivity.
Qed.

Lemma skipn_length_app : forall (A : Type) (l l' : list A),
  skipn (List.length l) (l ++ l') = l'.
Proof. induction l as [|x l IH]; intros l'; simpl; [reflexivity|apply IH]. Qed.

Lemma holds_on_disk_frame : forall name w w' olds,
  (forall n, n <> name -> os.content n (disk w') = os.content n (disk w)) ->
  ~ In name (map fst olds) ->
  Forall (fun ns : string * list string => holds_on_disk w (fst ns) (snd ns)) olds ->
  Forall (fun ns : string * list string => holds_on_disk w' (fst ns) (snd ns)) olds.
Proof.
  intros name w w' olds Hc Hn H.
  induction H as [|[n seg] olds Hx H IH]; constructor.
  - unfold holds_on_disk in *. simpl in *. rewrite Hc; [exact Hx|].
    intros E. apply Hn. left. exact E.
  - apply IH. intros Hin. apply Hn. right. exact Hin.
Qed.

Lemma newFile_tracks : forall e pre sl w cur seg olds,
  tracks pre sl w cur seg olds ->
  env_create_err e = None ->
  exists sl' w',
    newFile e sl w = Returned sl' w' /\
    created_names (syscalls w') =
      (pre ++ rev (cur :: map fst olds) ++ [LogFileHandle e (BaseLogName sl)])%list /\
    (~ In (LogFileHandle e (BaseLogName sl)) (cur :: map fst olds) ->
     tracks pre sl' w' (LogFileHandle e (BaseLogName sl)) [] ((cur, seg) :: olds)).
Proof.
  intros e pre sl w cur seg olds
    (f & b & c & Hlog & Hwr & Hbf & Hbe & Hf & Hc & Heq & Holds & Hnin & Hnames) He.
  set (new := LogFileHandle e (BaseLogName sl)).
  unfold newFile. rewrite Hwr.
  destruct (Flush_ok b w f cur c Hbf Hbe Hf Hc) as (w1 & HF & Hc1 & Hfr).
  pose proof (Flush_quiet b w) as Q. rewrite HF in *. simpl in Q.
  apply quiet_names in Q.
  destruct Hfr as (O1 & N1 & C1).
  cbn [log set_writer BaseLogName]. rewrite Hlog.
  unfold os.Close. rewrite O1, Hf.
  unfold os.Create. rewrite He. cbn [disk opened next_fd syscalls].
  fold new. eexists. eexists. split; [reflexivity|].
  cbn [syscalls]. split.
  - rewrite !created_names_app, Q, Hnames. simpl.
    rewrite app_nil_r, <- app_assoc. reflexivity.
  - intros Hnew.
    exists (next_fd w1), (bufio.NewWriter (Some (next_fd w1))), "".
    cbn [log writer set_log set_writer bufio.wr bufio.err bufio.buf
         bufio.NewWriter opened disk syscalls os.lookup].
    rewrite Nat.eqb_refl.
    split; [reflexivity|]. split; [reflexivity|]. split; [reflexivity|].
    split; [reflexivity|]. split; [reflexivity|].
    split; [apply content_truncate_same|]. split; [reflexivity|].
    assert (Hcn : cur <> new).
    { intros E. apply Hnew. left. exact E. }
    split; [|split].
    + constructor.
      * unfold holds_on_disk. simpl.
        rewrite content_truncate_other by exact Hcn.
        rewrite Hc1, Heq. reflexivity.
      * apply (holds_on_disk_frame new w1); simpl.
        -- intros n Hn. apply content_truncate_other, Hn.
        -- intros Hin. apply Hnew. right. exact Hin.
        -- apply (holds_on_disk_frame cur w w1 olds); assumption.
    + exact Hnew.
    + rewrite !created_names_app, Q, Hnames. simpl.
      rewrite app_nil_r, <- !app_assoc. reflexivity.
Qed.

Lemma LogMessage_tracks : forall e message pre sl w cur seg olds,
  tracks pre sl w cur seg olds ->
  env_create_err e = None ->
  exists sl' w',
    LogMessage e message sl w = Returned sl' w' /\
    (tracks pre sl' w' cur (seg ++ [message])%list olds \/
     (created_names (syscalls w') =
        (pre ++ rev (cur :: map fst olds) ++ [LogFileHandle e (BaseLogName sl)])%list /\
      (~ In (LogFileHandle e (BaseLogName sl)) (cur :: map fst olds) ->
       tracks pre sl' w' (LogFileHandle e (BaseLogName sl)) []
         ((cur, (seg ++ [message])%list) :: olds)))).
Proof.
  intros e message pre sl w cur seg olds
    (f & b & c & Hlog & Hwr & Hbf & Hbe & Hf & Hc & Heq & Holds & Hnin & Hnames) He.
  unfold LogMessage, Fprintln. rewrite Hwr.
  destruct (bufio_Write_ok b (message ++ newline) w f cur c Hbf Hbe Hf Hc)
    as (b1 & w1 & c1 & HW & Hbf1 & Hbe1 & Hc1 & Heq1 & Hfr).
  pose proof (bufio_Write_quiet b (message ++ newline) w) as Q.
  rewrite HW in *. simpl in Q. apply quiet_names in Q.
  set (sl4 := set_logStamp _ _).
  assert (T : tracks pre sl4 w1 cur (seg ++ [message])%list olds).
  { exists f, b1, c1. subst sl4. cbn [log writer set_logStamp set_logDuration
      set_logMessageCount set_writer].
    split; [exact Hlog|]. split; [reflexivity|]. split; [exact Hbf1|].
    split; [exact Hbe1|].
    split; [destruct Hfr as (O1 & _); rewrite O1; exact Hf|].
    split; [exact Hc1|].
    split; [rewrite Heq1, lines_app, <- Heq, !append_assoc; reflexivity|].
    split; [apply (holds_on_disk_frame cur w w1 olds); [apply Hfr|exact Hnin|exact Holds]|].
    split; [exact Hnin|]. rewrite Q. exact Hnames. }
  destruct ((MaxLogMessageCount sl4 <? logMessageCount sl4)
            || (MaxLogDuration sl4 <? logDuration sl4)).
  - destruct (newFile_tracks e pre sl4 w1 cur (seg ++ [message])%list olds T He)
      as (sl' & w' & Hn & Hnm & Ht).
    exists sl', w'. split; [exact Hn|]. right. split; [exact Hnm|exact Ht].
  - exists sl4, w1. split; [reflexivity|]. left. exact T.
Qed.

(** *** The names created only grow *)

Lemma newFile_grows : forall e sl w,
  exists l, created_names (syscalls (world_of (newFile e sl w))) =
            (created_names (syscalls w) ++ l)%list.
Proof.
  intros e sl w. unfold newFile.
  destruct (writer sl) as [b|]; [|exists []; simpl; rewrite app_nil_r; reflexivity].
  pose proof (quiet_names _ _ (Flush_quiet b w)) as Q1.
  destruct (bufio.Flush b w) as [[oe b'] w1]. simpl in Q1.
  pose proof (quiet_names _ _ (os_Close_quiet (log (set_writer (Some b') sl)) w1)) as Q2.
  destruct (os.Close _ w1) as [ce w2]. simpl in Q2.
  unfold os.Create.
  destruct (env_create_err e); simpl; rewrite created_names_app, Q2, Q1;
    eexists; reflexivity.
Qed.

Lemma LogMessage_grows : forall e message sl w,
  exists l, created_names (syscalls (world_of (LogMessage e message sl w))) =
            (created_names (syscalls w) ++ l)%list.
Proof.
  intros e message sl w. unfold LogMessage, Fprintln.
  destruct (writer sl) as [b|]; [|exists []; simpl; rewrite app_nil_r; reflexivity].
  pose proof (quiet_names _ _ (bufio_Write_quiet b (message ++ newline) w)) as Q.
  destruct (bufio.Write b (message ++ newline) w) as [b1 w1]. simpl in Q.
  set (sl4 := set_logStamp _ _).
  destruct (_ || _).
  - destruct (newFile_grows e sl4 w1) as (l & H). exists l. rewrite H, Q. reflexivity.
  - exists []. simpl. rewrite app_nil_r. exact Q.
Qed.

Lemma LogMessages_grows : forall calls sl w,
  exists l, created_names (syscalls (world_of (LogMessages calls sl w))) =
            (created_names (syscalls w) ++ l)%list.
Proof.
  induction calls as [|[e message] calls IH]; intros sl w; simpl.
  - exists []. rewrite app_nil_r. reflexivity.
  - destruct (LogMessage_grows e message sl w) as (l1 & H1).
    destruct (LogMessage e message sl w) as [sl' w'|sl' w']; simpl in H1.
    + destruct (IH sl' w') as (l2 & H2). exists (l1 ++ l2)%list.
      rewrite H2, H1, app_assoc. reflexivity.
    + exists l1. exact H1.
Qed.

Lemma LogMessages_tracks : forall calls pre sl w cur seg olds,
  tracks pre sl w cur seg olds ->
  Forall (fun c : Env * string => env_create_err (fst c) = None) calls ->
  NoDup (skipn (List.length pre)
           (created_names (syscalls (world_of (LogMessages calls sl w))))) ->
  exists sl' w' cur' seg' olds',
    LogMessages calls sl w = Returned sl' w' /\
    tracks pre sl' w' cur' seg' olds' /\
    List.concat (rev (seg' :: map snd olds')) =
      (List.concat (rev (seg :: map snd olds)) ++ map snd calls)%list.
Proof.
  induction calls as [|[e message] calls IH];
    intros pre sl w cur seg olds T Hok Hnd.
  - exists sl, w, cur, seg, olds. simpl. rewrite app_nil_r. repeat split. exact T.
  - inversion Hok as [|x xs He Hok']; subst. simpl in He.
    destruct (LogMessage_tracks e message pre sl w cur seg olds T He)
      as (sl1 & w1 & HL & Hcase).
    cbn [LogMessages] in Hnd |- *. rewrite HL in *.
    destruct Hcase as [T1|[Hnm Ht]].
    + destruct (IH pre sl1 w1 cur (seg ++ [message])%list olds T1 Hok' Hnd)
        as (sl' & w' & cur' & seg' & olds' & HR & T' & Hcat).
      exists sl', w', cur', seg', olds'. split; [exact HR|]. split; [exact T'|].
      rewrite Hcat. simpl. rewrite !concat_app. simpl.
      rewrite !app_nil_r, <- !app_assoc. reflexivity.
    + assert (Hfresh : ~ In (LogFileHandle e (BaseLogName sl)) (cur :: map fst olds)).
      { destruct (LogMessages_grows calls sl1 w1) as (l & Hl).
        assert (Hshape :
          skipn (List.length pre)
            (created_names (syscalls (world_of (LogMessages calls sl1 w1)))) =
          (rev (cur :: map fst olds) ++ LogFileHandle e (BaseLogName sl) :: l)%list).
        { rewrite Hl, Hnm, <- !app_assoc, skipn_length_app. reflexivity. }
        pose proof Hnd as Hnd'. rewrite Hshape in Hnd'.
        apply NoDup_remove_2 in Hnd'.
        intros Hin. apply Hnd'. apply in_or_app. left.
        apply in_rev in Hin. exact Hin. }
      destruct (IH pre sl1 w1 _ [] ((cur, (seg ++ [message])%list) :: olds)
                  (Ht Hfresh) Hok' Hnd)
        as (sl' & w' & cur' & seg' & olds' & HR & T' & Hcat).
      exists sl', w', cur', seg', olds'. split; [exact HR|]. split; [exact T'|].
      rewrite Hcat. simpl. rewrite !concat_app. simpl.
      rewrite !app_nil_r, <- !app_assoc. reflexivity.
Qed.

Lemma Forall_pairs_rev : forall (R : string -> list string -> Prop) olds,
  Forall (fun ns : string * list string => R (fst ns) (snd ns)) olds ->
  Forall2 R (rev (map fst olds)) (rev (map snd olds)).
Proof.
  intros R olds H. induction H as [|x olds Hx H IH]; simpl.
  - constructor.
  - apply Forall2_app; [exact IH|]. constructor; [exact Hx|constructor].
Qed.

Lemma tracks_holds : forall pre sl w cur seg olds,
  tracks pre sl w cur seg olds ->
  holds sl w cur seg /\
  Forall (fun ns : string * list string => holds sl w (fst ns) (snd ns)) olds /\
  Forall (fun ns : string * list string => holds_on_disk w (fst ns) (snd ns)) olds.
Proof.
  intros pre sl w cur seg olds
    (f & b & c & Hlog & Hwr & Hbf & Hbe & Hf & Hc & Heq & Holds & Hnin & Hnames).
  assert (Hp : forall n, pending sl w n = if String.eqb cur n then bufio.buf b else "").
  { intros n. unfold pending. rewrite Hwr, Hbf, Hf. reflexivity. }
  split; [|split; [|exact Holds]].
  - exists c. rewrite Hp, String.eqb_refl. split; assumption.
  - rewrite Forall_forall in *. intros [n s] Hin. simpl.
    exists (lines s). split; [apply (Holds (n, s) Hin)|].
    rewrite Hp. destruct (String.eqb_spec cur n) as [E|E].
    + exfalso. apply Hnin. subst n. change cur with (fst (cur, s)).
      apply in_map, Hin.
    + apply append_nil_r.
Qed.

(** C4 (amended): a logger is started and messages are appended; every file
    creation succeeds and the names the logger creates are pairwise distinct.
    Then the call sequence returns, and the messages split, in order, into one
    segment for each file produced, oldest first: every file but the last holds
    on disk exactly the lines of its segment, and the last one holds the lines
    of its segment once the bytes still pending in the buffered writer are
    counted with it. *)
Theorem messages_round_trip : forall e0 logBaseName sl0 w0 sl1 w1 calls,
  StartLog e0 logBaseName sl0 w0 = (None, sl1, w1) ->
  Forall (fun c : Env * string => env_create_err (fst c) = None) calls ->
  NoDup (produced w0 (world_of (LogMessages calls sl1 w1))) ->
  exists sl w segs,
    LogMessages calls sl1 w1 = Returned sl w /\
    List.concat segs = map snd calls /\
    Forall2 (holds sl w) (produced w0 w) segs /\
    Forall2 (holds_on_disk w) (removelast (produced w0 w)) (removelast segs).
Proof.
  intros e0 logBaseName sl0 w0 sl1 w1 calls Hs Hok Hnd.
  unfold StartLog, os.Create in Hs.
  destruct (env_create_err e0); [discriminate|].
  injection Hs as Hsl Hw.
  set (name0 := LogFileHandle e0 logBaseName) in *.
  assert (T : tracks (created_names (syscalls w0)) sl1 w1 name0 [] []).
  { exists (next_fd w0), (bufio.NewWriter (Some (next_fd w0))), "".
    subst sl1 w1. cbn [log writer set_log set_writer opened disk syscalls
      os.lookup bufio.wr bufio.err bufio.buf bufio.NewWriter].
    rewrite Nat.eqb_refl.
    do 5 (split; [reflexivity|]).
    split; [apply content_truncate_same|]. split; [reflexivity|].
    split; [constructor|]. split; [intros []|].
    rewrite created_names_app. reflexivity. }
  destruct (LogMessages_tracks calls _ sl1 w1 name0 [] [] T Hok Hnd)
    as (sl & w & cur & seg & olds & HR & T' & Hcat).
  exists sl, w, (rev (seg :: map snd olds)).
  split; [exact HR|]. split; [rewrite Hcat; reflexivity|].
  assert (Hp : produced w0 w = rev (cur :: map fst olds)).
  { destruct T' as (f & b & c & _ & _ & _ & _ & _ & _ & _ & _ & _ & Hnames).
    unfold produced. rewrite Hnames. apply skipn_length_app. }
  destruct (tracks_holds _ sl w cur seg olds T') as (Hcur & Hh & Hd).
  rewrite Hp. simpl. split.
  - apply Forall2_app; [apply Forall_pairs_rev, Hh|].
    constructor; [exact Hcur|constructor].
  - rewrite !removelast_last. apply Forall_pairs_rev, Hd.
Qed.

Lemma messages_round_trip_witness :
  exists sl w segs,
    LogMessages Scenario.four_messages
      (snd (fst (Scenario.started 2 1))) (snd (Scenario.started 2 1)) = Returned sl w /\
    List.concat segs = ["a"; "b"; "c"; "d"] /\
    Forall2 (holds sl w) (produced empty_World w) segs /\
    Forall2 (holds_on_disk w) (removelast (produced empty_World w)) (removelast segs).
Proof.
  apply (messages_round_trip (Scenario.at_ "t0") "app" (Scenario.configured 2 1)
           empty_World (snd (fst (Scenario.started 2 1))) (snd (Scenario.started 2 1))
           Scenario.four_messages).
  - reflexivity.
  - repeat constructor.
  - vm_compute. repeat constructor; simpl; intuition discriminate.
Defined.

(** C4, as stated, fails: one message, no rollover.  The call returns, the only
    file produced is empty, so no split of the messages over the files on disk
    has the message in a file. *)
Lemma buffered_message_in_no_file :
  returned (Scenario.run 2 10 [(Scenario.at_ "t1", "a")]) = true /\
  disk (world_of (Scenario.run 2 10 [(Scenario.at_ "t1", "a")])) = [("app t0", "")] /\
  ~ exists segs,
      List.concat segs = ["a"] /\
      Forall2 (holds_on_disk (world_of (Scenario.run 2 10 [(Scenario.at_ "t1", "a")])))
        (produced empty_World (world_of (Scenario.run 2 10 [(Scenario.at_ "t1", "a")])))
        segs.
Proof.
  split; [reflexivity|]. split; [reflexivity|].
  intros (segs & Hc & HF).
  assert (Hp : produced empty_World
                 (world_of (Scenario.run 2 10 [(Scenario.at_ "t1", "a")]))
               = ["app t0"]) by reflexivity.
  rewrite Hp in HF.
  inversion HF as [|n seg ns segs' Hh HF']; subst.
  inversion HF'; subst.
  unfold holds_on_disk in Hh.
  assert (Hd : os.content "app t0"
                 (disk (world_of (Scenario.run 2 10 [(Scenario.at_ "t1", "a")])))
               = Some "") by reflexivity.
  rewrite Hd in Hh. injection Hh as Hl.
  destruct seg as [|m seg']; [discriminate Hc|].
  simpl in Hl. destruct m; discriminate Hl.
Qed.

(** Two rollovers that get the same name: the second creation empties the file
    the first message of the new file went to, and that message is gone. *)
Example same_name_loses_a_message :
  exists sl w,
    Scenario.run 2 0 Scenario.same_second = Returned sl w /\
    disk w = [("app t0", lines ["a"]); ("app t1", "")] /\
    writer sl = Some (bufio.NewWriter (Some 5%nat)).
Proof. do 2 eexists. split; [vm_compute; reflexivity|]. split; reflexivity. Qed.

(** ** No method closes the file *)

Lemma os_Write_opened : forall f p w, opened (snd (os.Write f p w)) = opened w.
Proof.
  intros f p w. unfold os.Write.
  destruct f as [f'|]; [|reflexivity].
  destruct (os.lookup f' (opened w)); reflexivity.
Qed.

Lemma Flush_opened : forall b w, opened (snd (bufio.Flush b w)) = opened w.
Proof.
  intros b w. unfold bufio.Flush.
  destruct (bufio.err b); [reflexivity|].
  destruct (Nat.eqb (bufio.Buffered b) 0); [reflexivity|].
  pose proof (os_Write_opened (bufio.wr b) (bufio.buf b) w) as H.
  destruct (os.Write (bufio.wr b) (bufio.buf b) w) as [[n oe] w'].
  destruct oe; exact H.
Qed.

Lemma Write_loop_opened : forall fuel b p w,
  opened (snd (bufio.Write_loop fuel b p w)) = opened w.
Proof.
  induction fuel as [|fuel IH]; intros b p w; [reflexivity|].
  rewrite Write_loop_S.
  destruct (bufio.loop_cond b p); [|reflexivity].
  destruct (Nat.eqb (bufio.Buffered b) 0); cbv zeta.
  - pose proof (os_Write_opened (bufio.wr b) p w) as H.
    destruct (os.Write (bufio.wr b) p w) as [[n oe] w'].
    rewrite IH. exact H.
  - match goal with |- context [bufio.Flush ?b1 w] =>
      pose proof (Flush_opened b1 w) as H;
      destruct (bufio.Flush b1 w) as [[oe b2] w'] end.
    rewrite IH. exact H.
Qed.

Lemma bufio_Write_opened : forall b p w, opened (snd (bufio.Write b p w)) = opened w.
Proof.
  intros b p w. unfold bufio.Write.
  pose proof (Write_loop_opened 2 b p w) as H.
  destruct (bufio.Write_loop 2 b p w) as [[b' p'] w'].
  destruct (bufio.err b'); exact H.
Qed.

Lemma newFile_opens : forall e sl w b,
  writer sl = Some b ->
  env_create_err e = None ->
  active_open (logger_of (newFile e sl w)) (world_of (newFile e sl w)) = true.
Proof.
  intros e sl w b Hb He. unfold newFile. rewrite Hb.
  destruct (bufio.Flush b w) as [[oe b'] w1].
  destruct (os.Close _ w1) as [ce w2].
  unfold os.Create. rewrite He.
  unfold active_open, os.is_open. simpl. rewrite Nat.eqb_refl. reflexivity.
Qed.

Lemma LogMessage_keeps_open : forall e message sl w,
  env_create_err e = None ->
  active_open sl w = true ->
  active_open (logger_of (LogMessage e message sl w))
    (world_of (LogMessage e message sl w)) = true.
Proof.
  intros e message sl w He Ho. unfold LogMessage, Fprintln.
  destruct (writer sl) as [b|]; [|exact Ho].
  pose proof (bufio_Write_opened b (message ++ newline) w) as H.
  destruct (bufio.Write b (message ++ newline) w) as [b1 w1]. simpl in H.
  set (sl4 := set_logStamp _ _).
  destruct (_ || _).
  - apply (newFile_opens e sl4 w1 b1); [reflexivity|exact He].
  - unfold active_open, os.is_open in *. simpl. rewrite H. exact Ho.
Qed.

(** C8 (amended): the logger has no close operation.  Whichever of its methods
    is called on a logger that holds an open file, if the file creation of
    that call succeeds, the logger holds an open file afterwards. *)
Theorem no_method_closes_the_file : forall m e sl w,
  env_create_err e = None ->
  active_open sl w = true ->
  active_open (logger_of (call m e sl w)) (world_of (call m e sl w)) = true.
Proof.
  intros [logBaseName|message| |] e sl w He Ho; unfold call.
  - destruct (StartLog_success e logBaseName sl w He) as (sl' & w' & Hs & H).
    rewrite Hs. simpl. apply H.
  - apply LogMessage_keeps_open; assumption.
  - destruct (writer sl) as [b|] eqn:Hb.
    + apply (newFile_opens e sl w b); assumption.
    + rewrite newFile_panics by exact Hb. exact Ho.
  - exact Ho.
Qed.

Lemma no_method_closes_the_file_witness :
  active_open
    (logger_of (call (M_LogMessage "a") (Scenario.at_ "t1")
                  (snd (fst (Scenario.started 2 0))) (snd (Scenario.started 2 0))))
    (world_of (call (M_LogMessage "a") (Scenario.at_ "t1")
                 (snd (fst (Scenario.started 2 0))) (snd (Scenario.started 2 0))))
  = true.
Proof.
  apply (no_method_closes_the_file (M_LogMessage "a") (Scenario.at_ "t1")
           (snd (fst (Scenario.started 2 0))) (snd (Scenario.started 2 0)));
    reflexivity.
Defined.

(** C8, as stated, fails: no method of the logger is a close operation, one
    that leaves the logger without an open file and does nothing when called
    again. *)
Lemma no_close_operation :
  ~ exists m, closes_active_file m /\ second_call_is_noop m.
Proof.
  intros (m & Hc & _).
  specialize (Hc (Scenario.at_ "t1") (snd (fst (Scenario.started 2 0)))
                (snd (Scenario.started 2 0)) eq_refl).
  destruct m as [logBaseName|message| |]; unfold call in Hc.
  - destruct (StartLog_success (Scenario.at_ "t1") logBaseName
                (snd (fst (Scenario.started 2 0))) (snd (Scenario.started 2 0))
                eq_refl) as (sl' & w' & Hs & H).
    rewrite Hs in Hc. simpl in Hc.
    destruct H as (_ & _ & _ & _ & _ & _ & _ & Ho). congruence.
  - rewrite LogMessage_keeps_open in Hc; [discriminate| |]; reflexivity.
  - vm_compute in Hc. discriminate.
  - vm_compute in Hc. discriminate.
Qed.

(** ** No method removes a file *)

Lemma keeps_files_refl : forall w, keeps_files w w.
Proof. intros w. exists []. rewrite app_nil_r. reflexivity. Qed.

Lemma keeps_files_trans : forall w1 w2 w3,
  keeps_files w1 w2 -> keeps_files w2 w3 -> keeps_files w1 w3.
Proof.
  intros w1 w2 w3 (l1 & H1) (l2 & H2). exists (l1 ++ l2)%list.
  rewrite H2, H1, app_assoc. reflexivity.
Qed.

Lemma names_append_to : forall n p d, map fst (os.append_to n p d) = map fst d.
Proof.
  intros n p. induction d as [|[m x] d IH]; simpl; [reflexivity|].
  destruct (String.eqb n m); simpl; [|rewrite IH]; reflexivity.
Qed.

Lemma names_truncate : forall n d,
  exists l, map fst (os.truncate n d) = (map fst d ++ l)%list.
Proof.
  intros n. induction d as [|[m x] d IH]; simpl.
  - exists [n]. reflexivity.
  - destruct (String.eqb n m); simpl.
    + exists []. rewrite app_nil_r. reflexivity.
    + destruct IH as (l & IH). exists l. rewrite IH. reflexivity.
Qed.

Lemma os_Write_keeps_files : forall f p w, keeps_files w (snd (os.Write f p w)).
Proof.
  intros f p w. unfold os.Write.
  destruct f as [f'|]; [|apply keeps_files_refl].
  destruct (os.lookup f' (opened w)); [|apply keeps_files_refl].
  exists []. simpl. rewrite names_append_to, app_nil_r. reflexivity.
Qed.

Lemma os_Close_keeps_files : forall f w, keeps_files w (snd (os.Close f w)).
Proof.
  intros f w. unfold os.Close.
  destruct f as [f'|]; [|apply keeps_files_refl].
  destruct (os.lookup f' (opened w)); [|apply keeps_files_refl].
  exists []. simpl. rewrite app_nil_r. reflexivity.
Qed.

Lemma os_Create_keeps_files : forall e name w,
  keeps_files w (snd (os.Create e name w)).
Proof.
  intros e name w. unfold os.Create.
  destruct (env_create_err e).
  - exists []. simpl. rewrite app_nil_r. reflexivity.
  - apply names_truncate.
Qed.

Lemma Flush_keeps_files : forall b w, keeps_files w (snd (bufio.Flush b w)).
Proof.
  intros b w. unfold bufio.Flush.
  destruct (bufio.err b); [apply keeps_files_refl|].
  destruct (Nat.eqb (bufio.Buffered b) 0); [apply keeps_files_refl|].
  pose proof (os_Write_keeps_files (bufio.wr b) (bufio.buf b) w) as H.
  destruct (os.Write (bufio.wr b) (bufio.buf b) w) as [[n oe] w'].
  destruct oe; exact H.
Qed.

Lemma Write_loop_keeps_files : forall fuel b p w,
  keeps_files w (snd (bufio.Write_loop fuel b p w)).
Proof.
  induction fuel as [|fuel IH]; intros b p w; [apply keeps_files_refl|].
  rewrite Write_loop_S.
  destruct (bufio.loop_cond b p); [|apply keeps_files_refl].
  destruct (Nat.eqb (bufio.Buffered b) 0); cbv zeta.
  - pose proof (os_Write_keeps_files (bufio.wr b) p w) as H.
    destruct (os.Write (bufio.wr b) p w) as [[n oe] w'].
    eapply keeps_files_trans; [exact H|apply IH].
  - match goal with |- context [bufio.Flush ?b1 w] =>
      pose proof (Flush_keeps_files b1 w) as H;
      destruct (bufio.Flush b1 w) as [[oe b2] w'] end.
    eapply keeps_files_trans; [exact H|apply IH].
Qed.

Lemma bufio_Write_keeps_files : forall b p w,
  keeps_files w (snd (bufio.Write b p w)).
Proof.
  intros b p w. unfold bufio.Write.
  pose proof (Write_loop_keeps_files 2 b p w) as H.
  destruct (bufio.Write_loop 2 b p w) as [[b' p'] w'].
  destruct (bufio.err b'); exact H.
Qed.

Lemma newFile_keeps_files : forall e sl w,
  keeps_files w (world_of (newFile e sl w)).
Proof.
  intros e sl w. unfold newFile.
  destruct (writer sl) as [b|]; [|apply keeps_files_refl].
  pose proof (Flush_keeps_files b w) as H1.
  destruct (bufio.Flush b w) as [[oe b'] w1]. simpl in H1.
  pose proof (os_Close_keeps_files (log (set_writer (Some b') sl)) w1) as H2.
  destruct (os.Close _ w1) as [ce w2]. simpl in H2.
  pose proof (os_Create_keeps_files e
    (LogFileHandle e (BaseLogName (set_writer (Some b') sl))) w2) as H3.
  destruct (os.Create e _ w2) as [[filePtr er] w3]. simpl in H3.
  assert (H : keeps_files w w3).
  { eapply keeps_files_trans; [exact H1|].
    eapply keeps_files_trans; [exact H2|exact H3]. }
  destruct er; exact H.
Qed.

Lemma LogMessage_keeps_files : forall e message sl w,
  keeps_files w (world_of (LogMessage e message sl w)).
Proof.
  intros e message sl w. unfold LogMessage, Fprintln.
  destruct (writer sl) as [b|]; [|apply keeps_files_refl].
  pose proof (bufio_Write_keeps_files b (message ++ newline) w) as H.
  destruct (bufio.Write b (message ++ newline) w) as [b1 w1]. simpl in H.
  set (sl4 := set_logStamp _ _).
  destruct (_ || _); [|exact H].
  eapply keeps_files_trans; [exact H|apply newFile_keeps_files].
Qed.

(** X2: whatever is logged, the files on disk stay: the list of names only
    gets longer, and [MaxLogFileCount] plays no part. *)
Lemma LogMessages_keeps_files : forall calls sl w,
  keeps_files w (world_of (LogMessages calls sl w)).
Proof.
  induction calls as [|[e message] calls IH]; intros sl w; simpl.
  - apply keeps_files_refl.
  - pose proof (LogMessage_keeps_files e message sl w) as H.
    destruct (LogMessage e message sl w) as [sl' w'|sl' w']; simpl in H.
    + eapply keeps_files_trans; [exact H|apply IH].
    + exact H.
Qed.

(** ** A failed rollover *)

(** X3: when the creation fails the logger is left with a nil file and a
    fresh writer on it; the error handler adds nothing to the system calls,
    which end with the failed create. *)
Lemma newFile_failure : forall e sl w b err,
  writer sl = Some b ->
  env_create_err e = Some err ->
  exists sl' w' cs,
    newFile e sl w = Returned sl' w' /\
    log sl' = None /\
    writer sl' = Some (bufio.NewWriter None) /\
    syscalls w' =
      (cs ++ [SysCreate (LogFileHandle e (BaseLogName sl)) (Some err)])%list /\
    keeps_files w w'.
Proof.
  intros e sl w b err Hb He.
  pose proof (newFile_keeps_files e sl w) as Hk. revert Hk.
  unfold newFile. rewrite Hb.
  destruct (bufio.Flush b w) as [[oe b'] w1].
  destruct (os.Close _ w1) as [ce w2].
  unfold os.Create. rewrite He. simpl. intros Hk.
  exists (set_writer (Some (bufio.NewWriter None))
            (set_log None (set_writer (Some b') sl))), 
         (os.log_call (SysCreate (LogFileHandle e (BaseLogName sl)) (Some err)) w2),
         (syscalls w2).
  repeat split. exact Hk.
Qed.

(** ** The zero value *)

(** A logger on which [StartLog] was never called has a nil writer:
    [LogMessage] panics on it and changes nothing. *)
Lemma LogMessage_zero_value : forall e message w,
  LogMessage e message zero_SeanLogger w = Panicked zero_SeanLogger w.
Proof. intros e message w. apply LogMessage_panics. reflexivity. Qed.

(** * Further properties of the logger *)

Lemma rollovers_without_reset_witness :
  exists sl' w',
    LogMessages Scenario.four_messages
      (snd (fst (Scenario.started 2 1))) (snd (Scenario.started 2 1)) = Returned sl' w' /\
    logMessageCount sl' = 4 /\
    Z.of_nat (creates w') = 4.
Proof.
  apply (rollovers_without_reset Scenario.four_messages
           (snd (fst (Scenario.started 2 1))) (snd (Scenario.started 2 1))
           (bufio.NewWriter (Some 3%nat))).
  - reflexivity.
  - vm_compute. discriminate.
  - reflexivity.
  - vm_compute. split; [discriminate|reflexivity].
  - vm_compute. split; [discriminate|reflexivity].
  - vm_compute. discriminate.
  - repeat constructor.
Defined.

Lemma newFile_failure_witness :
  exists sl' w' cs,
    newFile (Scenario.disk_full "t1")
      (snd (fst (Scenario.started 2 0))) (snd (Scenario.started 2 0)) = Returned sl' w' /\
    log sl' = None /\
    writer sl' = Some (bufio.NewWriter None) /\
    syscalls w' =
      (cs ++ [SysCreate "app t1" (Some (PathError "open" "no space left on device"))])%list /\
    keeps_files (snd (Scenario.started 2 0)) w'.
Proof.
  apply (newFile_failure (Scenario.disk_full "t1")
           (snd (fst (Scenario.started 2 0))) (snd (Scenario.started 2 0))
           (bufio.NewWriter (Some 3%nat))
           (PathError "open" "no space left on device")); reflexivity.
Defined.

(** ** Counters over a run *)

Lemma uint64_add_l : forall a b, Int.uint64 (Int.uint64 a + b) = Int.uint64 (a + b).
Proof. intros a b. unfold Int.uint64. apply Zplus_mod_idemp_l. Qed.

Lemma int64_add_l : forall a b, Int.int64 (Int.int64 a + b) = Int.int64 (a + b).
Proof.
  intros a b. unfold Int.int64. f_equal.
  replace ((a + Int.half) mod Int.modulus - Int.half + b + Int.half)
    with ((a + Int.half) mod Int.modulus + b) by ring.
  rewrite Zplus_mod_idemp_l. f_equal. ring.
Qed.

Lemma int64_add_r : forall a b, Int.int64 (a + Int.int64 b) = Int.int64 (a + b).
Proof.
  intros a b. rewrite Z.add_comm, int64_add_l, Z.add_comm. reflexivity.
Qed.

Lemma LogMessages_counters_cons : forall calls e message sl w b,
  writer sl = Some b ->
  exists sl' w',
    LogMessages ((e, message) :: calls) sl w = Returned sl' w' /\
    config sl' = config sl /\
    logMessageCount sl' =
      Int.uint64 (logMessageCount sl + Z.of_nat (S (List.length calls))) /\
    logStamp sl' = last_unix calls (time_Now_Unix e) /\
    logDuration sl' =
      Int.int64 (logDuration sl + (last_unix calls (time_Now_Unix e) - logStamp sl)).
Proof.
  induction calls as [|[e2 m2] calls IH]; intros e message sl w b Hb;
    destruct (LogMessage_spec e message sl w b Hb)
      as (sl1 & w1 & HL & Hcfg & Hbump & Hs1 & (b1 & Hb1) & _);
    unfold bump in Hbump; injection Hbump as Hc1 Hd1;
    rewrite int64_add_r in Hd1.
  - exists sl1, w1. cbn [LogMessages last_unix List.length]. rewrite HL.
    split; [reflexivity|]. split; [exact Hcfg|]. split; [exact Hc1|].
    split; [exact Hs1|exact Hd1].
  - destruct (IH e2 m2 sl1 w1 b1 Hb1) as (sl' & w' & HR & Hcfg' & Hc' & Hs' & Hd').
    exists sl', w'. cbn [LogMessages] in HR |- *. rewrite HL.
    split; [exact HR|]. split; [congruence|].
    cbn [last_unix].
    split; [|split; [exact Hs'|]].
    + rewrite Hc', Hc1, uint64_add_l. f_equal.
      change (List.length ((e2, m2) :: calls)) with (S (List.length calls)).
      rewrite !Nat2Z.inj_succ. ring.
    + rewrite Hd', Hd1, Hs1, int64_add_l. f_equal. ring.
Qed.

(** X4: a run of one call or more on a logger that has a writer returns, and
    then the message counter is the old one plus the number of calls, modulo
    2^64, the stamp is the clock reading of the last call, and the duration is
    the old one plus the time from the old stamp to the last reading, as an
    int64: rollovers on the way change none of the three. *)
Theorem LogMessages_counters : forall calls sl w b,
  writer sl = Some b ->
  calls <> [] ->
  exists sl' w',
    LogMessages calls sl w = Returned sl' w' /\
    config sl' = config sl /\
    logMessageCount sl' = Int.uint64 (logMessageCount sl + Z.of_nat (List.length calls)) /\
    logStamp sl' = last_unix calls (logStamp sl) /\
    logDuration sl' =
      Int.int64 (logDuration sl + (last_unix calls (logStamp sl) - logStamp sl)).
Proof.
  intros [|[e message] calls] sl w b Hb Hne; [contradiction|].
  exact (LogMessages_counters_cons calls e message sl w b Hb).
Qed.

Lemma LogMessages_counters_witness :
  exists sl' w',
    LogMessages Scenario.four_messages
      (snd (fst (Scenario.started 2 1))) (snd (Scenario.started 2 1)) = Returned sl' w' /\
    config sl' = ("app", 2, 1, 3600) /\
    logMessageCount sl' = 4 /\
    logStamp sl' = 100 /\
    logDuration sl' = 0.
Proof.
  apply (LogMessages_counters Scenario.four_messages
           (snd (fst (Scenario.started 2 1))) (snd (Scenario.started 2 1))
           (bufio.NewWriter (Some 3%nat))).
  - reflexivity.
  - discriminate.
Defined.

(** ** The file name *)

Lemma append_inj_l : forall a b c : string, a ++ b = a ++ c -> b = c.
Proof.
  induction a as [|x a IH]; intros b c H; simpl in H; [exact H|].
  injection H as H. apply IH, H.
Qed.

(** X6: for one base name, two calls of [LogFileHandle] give the same name
    exactly when they got the same date string. *)
Theorem LogFileHandle_same_name_iff : forall e1 e2 logBaseName,
  LogFileHandle e1 logBaseName = LogFileHandle e2 logBaseName <->
  env_dts e1 = env_dts e2.
Proof.
  intros e1 e2 logBaseName. unfold LogFileHandle, Buffer_WriteString. simpl.
  rewrite !append_assoc. split.
  - intros H. apply append_inj_l in H. simpl in H. injection H as H. exact H.
  - intros H. rewrite H. reflexivity.
Qed.

(** ** A logger without a file *)

Lemma Flush_nil : forall b w, bufio.wr b = None -> snd (bufio.Flush b w) = w.
Proof.
  intros b w H. unfold bufio.Flush.
  destruct (bufio.err b); [reflexivity|].
  destruct (Nat.eqb (bufio.Buffered b) 0); [reflexivity|].
  rewrite H. reflexivity.
Qed.

Lemma Write_loop_nil : forall fuel b p w,
  bufio.wr b = None -> snd (bufio.Write_loop fuel b p w) = w.
Proof.
  induction fuel as [|fuel IH]; intros b p w H; [reflexivity|].
  rewrite Write_loop_S.
  destruct (bufio.loop_cond b p); [|reflexivity].
  destruct (Nat.eqb (bufio.Buffered b) 0); cbv zeta.
  - rewrite H. cbn [os.Write]. apply IH. reflexivity.
  - unfold bufio.Flush. cbn [bufio.err bufio.wr bufio.buf].
    destruct (bufio.err b).
    + apply IH. exact H.
    + destruct (Nat.eqb _ 0).
      * apply IH. exact H.
      * rewrite H. cbn [os.Write]. apply IH. reflexivity.
Qed.

Lemma bufio_Write_nil : forall b p w,
  bufio.wr b = None -> snd (bufio.Write b p w) = w.
Proof.
  intros b p w H. unfold bufio.Write.
  pose proof (Write_loop_nil 2 b p w H) as HL.
  destruct (bufio.Write_loop 2 b p w) as [[b' p'] w'].
  destruct (bufio.err b'); exact HL.
Qed.

Lemma Write_loop_wr : forall fuel b p w,
  bufio.wr (fst (fst (bufio.Write_loop fuel b p w))) = bufio.wr b.
Proof.
  induction fuel as [|fuel IH]; intros b p w; [reflexivity|].
  rewrite Write_loop_S.
  destruct (bufio.loop_cond b p); [|reflexivity].
  destruct (Nat.eqb (bufio.Buffered b) 0); cbv zeta.
  - destruct (os.Write (bufio.wr b) p w) as [[n oe] w']. rewrite IH. reflexivity.
  - unfold bufio.Flush. cbn [bufio.err bufio.wr bufio.buf].
    destruct (bufio.err b).
    + rewrite IH. reflexivity.
    + destruct (Nat.eqb _ 0).
      * rewrite IH. reflexivity.
      * destruct (os.Write (bufio.wr b) _ w) as [[n [x|]] w'];
          rewrite IH; reflexivity.
Qed.

Lemma bufio_Write_wr : forall b p w,
  bufio.wr (fst (bufio.Write b p w)) = bufio.wr b.
Proof.
  intros b p w. unfold bufio.Write.
  pose proof (Write_loop_wr 2 b p w) as H.
  destruct (bufio.Write_loop 2 b p w) as [[b' p'] w'].
  destruct (bufio.err b'); exact H.
Qed.

(** X5: a logger whose file and whose writer's file are nil, as a failed
    rollover leaves it, takes the message without a panic and writes it
    nowhere: the world after the call is the world before it, or, when the
    call rolls over, the world [os.Create] makes of it; in that case the
    logger starts on the new file with an empty buffer. *)
Theorem LogMessage_without_file : forall e message sl w b,
  writer sl = Some b ->
  bufio.wr b = None ->
  log sl = None ->
  exists sl' w',
    LogMessage e message sl w = Returned sl' w' /\
    ((w' = w /\ log sl' = None) \/
     (exists filePtr err,
        os.Create e (LogFileHandle e (BaseLogName sl)) w = (filePtr, err, w') /\
        log sl' = filePtr /\
        writer sl' = Some (bufio.NewWriter filePtr))).
Proof.
  intros e message sl w b Hb Hwr Hlog. unfold LogMessage, Fprintln. rewrite Hb.
  pose proof (bufio_Write_nil b (message ++ newline) w Hwr) as HW.
  pose proof (bufio_Write_wr b (message ++ newline) w) as HB.
  destruct (bufio.Write b (message ++ newline) w) as [b1 w1].
  simpl in HW, HB. subst w1. rewrite Hwr in HB.
  set (sl4 := set_logStamp _ _).
  destruct (_ || _).
  - unfold newFile. cbn [writer sl4 set_logStamp set_logDuration
      set_logMessageCount set_writer].
    pose proof (Flush_nil b1 w HB) as HF.
    destruct (bufio.Flush b1 w) as [[oe b2] w2]. simpl in HF. subst w2.
    cbn [log set_writer BaseLogName].
    change (log sl4) with (log sl). change (BaseLogName sl4) with (BaseLogName sl).
    rewrite Hlog. cbn [os.Close].
    destruct (os.Create e (LogFileHandle e (BaseLogName sl)) w)
      as [[filePtr er] w3] eqn:HC.
    destruct er as [x|]; cbn [handleCreateError];
      eexists; eexists; (split; [reflexivity|]); right;
      eexists; eexists; (split; [reflexivity|]); split; reflexivity.
  - exists sl4, w. split; [reflexivity|]. left. split; [reflexivity|exact Hlog].
Qed.

Lemma LogMessage_without_file_witness :
  exists sl' w',
    LogMessage (Scenario.at_ "t2") "lost"
      (logger_of (LogMessage (Scenario.disk_full "t1") "a"
                    (snd (fst (Scenario.started 2 0))) (snd (Scenario.started 2 0))))
      (world_of (LogMessage (Scenario.disk_full "t1") "a"
                   (snd (fst (Scenario.started 2 0))) (snd (Scenario.started 2 0))))
    = Returned sl' w' /\
    os.content "app t0" (disk w') = Some (lines ["a"]) /\
    os.content "app t2" (disk w') = Some "".
Proof.
  destruct (LogMessage_without_file (Scenario.at_ "t2") "lost"
      (logger_of (LogMessage (Scenario.disk_full "t1") "a"
                    (snd (fst (Scenario.started 2 0))) (snd (Scenario.started 2 0))))
      (world_of (LogMessage (Scenario.disk_full "t1") "a"
                   (snd (fst (Scenario.started 2 0))) (snd (Scenario.started 2 0))))
      (bufio.NewWriter None) eq_refl eq_refl eq_refl)
    as (sl' & w' & HR & [[Hw _]|(filePtr & err & HC & _)]).
  - exists sl', w'. split; [exact HR|]. exfalso.
    rewrite Hw in HR. vm_compute in HR. discriminate HR.
  - exists sl', w'. split; [exact HR|].
    vm_compute in HC. injection HC as _ _ Hw. subst w'. split; reflexivity.
Defined.

(** ** What a rollover does to the new name *)

(** X7: after a rollover whose creation succeeds the file of the new name is
    empty on disk and the logger holds it open with an empty buffer, whatever
    was in a file of that name before; when the new name is the name of the
    file just closed, the messages flushed to it a moment ago are gone. *)
Theorem newFile_empties_its_name : forall e sl w b,
  writer sl = Some b ->
  env_create_err e = None ->
  exists sl' w' f,
    newFile e sl w = Returned sl' w' /\
    os.content (LogFileHandle e (BaseLogName sl)) (disk w') = Some "" /\
    log sl' = Some f /\
    os.lookup f (opened w') = Some (LogFileHandle e (BaseLogName sl)) /\
    writer sl' = Some (bufio.NewWriter (Some f)).
Proof.
  intros e sl w b Hb He. unfold newFile. rewrite Hb.
  destruct (bufio.Flush b w) as [[oe b'] w1].
  destruct (os.Close _ w1) as [ce w2].
  unfold os.Create. rewrite He.
  eexists. eexists. exists (next_fd w2). split; [reflexivity|].
  cbn [disk opened log writer set_log set_writer os.lookup BaseLogName].
  rewrite Nat.eqb_refl.
  split; [apply content_truncate_same|]. repeat split.
Qed.

Lemma newFile_empties_its_name_witness :
  exists sl' w' f,
    newFile (Scenario.at_ "t0")
      (logger_of (Scenario.run 2 10 Scenario.three_messages))
      (world_of (Scenario.run 2 10 Scenario.three_messages)) = Returned sl' w' /\
    os.content "app t0" (disk w') = Some "" /\
    log sl' = Some f /\
    os.lookup f (opened w') = Some "app t0" /\
    writer sl' = Some (bufio.NewWriter (Some f)).
Proof.
  apply (newFile_empties_its_name (Scenario.at_ "t0")
           (logger_of (Scenario.run 2 10 Scenario.three_messages))
           (world_of (Scenario.run 2 10 Scenario.three_messages))
           (bufio.mkWriter (Some 3%nat) (lines ["a"; "b"; "c"]) None));
    reflexivity.
Defined.

(** ** Descriptors *)

(** X8: [StartLog] on a logger that holds an open file neither flushes nor
    closes it: the one system call is the create, the old descriptor is still
    open afterwards beside the new one, and the logger's writer is a fresh one
    on the new file, so the bytes the old writer held are dropped. *)
Theorem StartLog_leaves_old_file_open : forall e logBaseName sl w f,
  log sl = Some f ->
  os.is_open f w = true ->
  env_create_err e = None ->
  exists sl' w',
    StartLog e logBaseName sl w = (None, sl', w') /\
    syscalls w' = (syscalls w ++ [SysCreate (LogFileHandle e logBaseName) None])%list /\
    opened w' = (next_fd w, LogFileHandle e logBaseName) :: opened w /\
    os.is_open f w' = true /\
    writer sl' = Some (bufio.NewWriter (Some (next_fd w))).
Proof.
  intros e logBaseName sl w f Hlog Ho He. unfold StartLog, os.Create. rewrite He.
  eexists. eexists. split; [reflexivity|].
  cbn [syscalls opened writer set_writer log set_log].
  split; [reflexivity|]. split; [reflexivity|]. split; [|reflexivity].
  unfold os.is_open in *. cbn [opened os.lookup].
  destruct (Nat.eqb f (next_fd w)); [reflexivity|exact Ho].
Qed.

Lemma StartLog_leaves_old_file_open_witness :
  exists sl' w',
    StartLog (Scenario.at_ "t9") "app"
      (logger_of (Scenario.run 2 10 Scenario.three_messages))
      (world_of (Scenario.run 2 10 Scenario.three_messages)) = (None, sl', w') /\
    syscalls w' = [SysCreate "app t0" None; SysCreate "app t9" None] /\
    opened w' = [(4%nat, "app t9"); (3%nat, "app t0")] /\
    os.is_open 3%nat w' = true /\
    writer sl' = Some (bufio.NewWriter (Some 4%nat)).
Proof.
  apply (StartLog_leaves_old_file_open (Scenario.at_ "t9") "app"
           (logger_of (Scenario.run 2 10 Scenario.three_messages))
           (world_of (Scenario.run 2 10 Scenario.three_messages)) 3%nat);
    reflexivity.
Defined.

Lemma newFile_sole_descriptor : forall e sl w,
  sole_descriptor sl w ->
  sole_descriptor (logger_of (newFile e sl w)) (world_of (newFile e sl w)).
Proof.
  intros e sl w H. unfold newFile.
  destruct (writer sl) as [b|]; [|exact H].
  pose proof (Flush_opened b w) as HF.
  destruct (bufio.Flush b w) as [[oe b'] w1]. simpl in HF.
  cbn [log set_writer].
  assert (HC : opened (snd (os.Close (log sl) w1)) = []).
  { unfold sole_descriptor in H. unfold os.Close.
    destruct (log sl) as [f|].
    - destruct H as (name & H). rewrite HF, H. cbn [os.lookup].
      rewrite Nat.eqb_refl. cbn [snd opened filter fst negb].
      rewrite Nat.eqb_refl. reflexivity.
    - simpl. rewrite HF. exact H. }
  destruct (os.Close (log sl) w1) as [ce w2]. simpl in HC.
  unfold os.Create, sole_descriptor.
  destruct (env_create_err e); simpl.
  - exact HC.
  - eexists. rewrite HC. reflexivity.
Qed.

Lemma LogMessage_sole_descriptor : forall e message sl w,
  sole_descriptor sl w ->
  sole_descriptor (logger_of (LogMessage e message sl w))
    (world_of (LogMessage e message sl w)).
Proof.
  intros e message sl w H. unfold LogMessage, Fprintln.
  destruct (writer sl) as [b|]; [|exact H].
  pose proof (bufio_Write_opened b (message ++ newline) w) as HW.
  destruct (bufio.Write b (message ++ newline) w) as [b1 w1]. simpl in HW.
  set (sl4 := set_logStamp _ _).
  assert (H4 : sole_descriptor sl4 w1).
  { unfold sole_descriptor in *. subst sl4. simpl. rewrite HW. exact H. }
  destruct (_ || _); [|exact H4].
  apply newFile_sole_descriptor, H4.
Qed.

Lemma LogMessages_sole_descriptor : forall calls sl w,
  sole_descriptor sl w ->
  sole_descriptor (logger_of (LogMessages calls sl w))
    (world_of (LogMessages calls sl w)).
Proof.
  induction calls as [|[e message] calls IH]; intros sl w H; simpl; [exact H|].
  pose proof (LogMessage_sole_descriptor e message sl w H) as H1.
  destruct (LogMessage e message sl w) as [sl' w'|sl' w']; simpl in H1.
  - apply IH, H1.
  - exact H1.
Qed.

(** X9: a logger started in a world without open descriptors has, after any
    run of [LogMessage], whether file creations succeed or fail on the way,
    no descriptor open but the one of its current file, and none at all when
    it has no file. *)
Theorem one_file_open_at_a_time : forall e0 logBaseName sl0 w0 sl1 w1 calls,
  opened w0 = [] ->
  StartLog e0 logBaseName sl0 w0 = (None, sl1, w1) ->
  sole_descriptor (logger_of (LogMessages calls sl1 w1))
    (world_of (LogMessages calls sl1 w1)).
Proof.
  intros e0 logBaseName sl0 w0 sl1 w1 calls Ho Hs.
  apply LogMessages_sole_descriptor.
  unfold StartLog, os.Create in Hs.
  destruct (env_create_err e0); [discriminate|].
  injection Hs as Hsl Hw. subst sl1 w1.
  unfold sole_descriptor. simpl. rewrite Ho. eexists. reflexivity.
Qed.

Lemma one_file_open_at_a_time_witness :
  sole_descriptor (logger_of (Scenario.run 2 1 Scenario.four_messages))
    (world_of (Scenario.run 2 1 Scenario.four_messages)).
Proof.
  apply (one_file_open_at_a_time (Scenario.at_ "t0") "app" (Scenario.configured 2 1)
           empty_World (snd (fst (Scenario.started 2 1))) (snd (Scenario.started 2 1))
           Scenario.four_messages); reflexivity.
Defined.

(** * Properties of the updater *)

(** ** Parsing the version number *)

Lemma digit_of_digit : forall c,
  is_digit c = true ->
  strconv.digit c = Some (Z.of_nat (nat_of_ascii c) - 48) /\
  0 <= Z.of_nat (nat_of_ascii c) - 48 <= 9.
Proof.
  intros c H. unfold is_digit in H. unfold strconv.digit. cbv zeta. rewrite H.
  apply andb_true_iff in H. destruct H as [H1 H2].
  apply Z.leb_le in H1. apply Z.leb_le in H2. split; [reflexivity|lia].
Qed.

Lemma digit_of_other : forall c,
  is_digit c = false ->
  strconv.digit c = None \/ exists d, strconv.digit c = Some d /\ 10 <= d.
Proof.
  intros c H. unfold is_digit in H. unfold strconv.digit. cbv zeta. rewrite H.
  clear H.
  destruct ((97 <=? strconv.lower (Z.of_nat (nat_of_ascii c)))
            && (strconv.lower (Z.of_nat (nat_of_ascii c)) <=? 122)) eqn:E.
  - right. eexists. split; [reflexivity|].
    apply andb_true_iff in E. destruct E as [E _]. apply Z.leb_le in E. lia.
  - left. reflexivity.
Qed.

Lemma decimal_from_ge : forall s acc n,
  0 <= acc -> decimal_from s acc = Some n -> acc <= n.
Proof.
  induction s as [|c s IH]; intros acc n Ha H; simpl in H.
  - injection H as H. lia.
  - destruct (is_digit c) eqn:E; [|discriminate].
    destruct (digit_of_digit c E) as [_ Hd].
    apply IH in H; lia.
Qed.

Lemma uint64_wrap : forall z,
  Int.modulus <= z < 2 * Int.modulus -> Int.uint64 z = z - Int.modulus.
Proof.
  intros z H. unfold Int.uint64. symmetry.
  apply (Z.mod_unique z Int.modulus 1); [left|]; lia.
Qed.

(** One round of the loop on a decimal digit: either the number read so far
    with the digit appended still fits, and the loop goes on with it, or the
    loop ends with a range error. *)
Lemma ParseUint_loop_digit : forall c s acc,
  is_digit c = true ->
  0 <= acc <= strconv.maxUint64 ->
  let acc' := acc * 10 + (Z.of_nat (nat_of_ascii c) - 48) in
  (acc' <= strconv.maxUint64 /\
   strconv.ParseUint_loop 10 (String c s) acc = strconv.ParseUint_loop 10 s acc') \/
  (strconv.maxUint64 < acc' /\
   strconv.ParseUint_loop 10 (String c s) acc = (strconv.maxUint64, Some strconv.ErrRange)).
Proof.
  intros c s acc Hc Ha acc'. subst acc'.
  destruct (digit_of_digit c Hc) as [Hd Hr].
  set (d := Z.of_nat (nat_of_ascii c) - 48) in *.
  cbn [strconv.ParseUint_loop]. rewrite Hd.
  change strconv.maxUint64 with 18446744073709551615 in *.
  change (strconv.cutoff 10) with 1844674407370955162.
  destruct (Z.leb_spec 10 d) as [H10|_]; [lia|].
  destruct (Z.leb_spec 1844674407370955162 acc) as [Hcut|Hcut].
  - right. split; [lia|reflexivity].
  - cbv zeta.
    rewrite (uint64_small (acc * 10))
      by (change Int.modulus with 18446744073709551616; lia).
    destruct (Z_le_gt_dec (acc * 10 + d) 18446744073709551615) as [Hfit|Hover].
    + left. split; [exact Hfit|].
      rewrite uint64_small by (change Int.modulus with 18446744073709551616; lia).
      destruct (Z.ltb_spec (acc * 10 + d) (acc * 10)) as [H1|_]; [lia|].
      destruct (Z.ltb_spec 18446744073709551615 (acc * 10 + d)) as [H2|_]; [lia|].
      reflexivity.
    + right. split; [lia|].
      rewrite uint64_wrap by (change Int.modulus with 18446744073709551616; lia).
      change Int.modulus with 18446744073709551616.
      destruct (Z.ltb_spec (acc * 10 + d - 18446744073709551616) (acc * 10))
        as [_|H1]; [reflexivity|lia].
Qed.

Lemma ParseUint_loop_other : forall c s acc,
  is_digit c = false ->
  strconv.ParseUint_loop 10 (String c s) acc = (0, Some strconv.ErrSyntax).
Proof.
  intros c s acc Hc. cbn [strconv.ParseUint_loop].
  destruct (digit_of_other c Hc) as [H|(d & H & Hd)]; rewrite H; [reflexivity|].
  destruct (Z.leb_spec 10 d); [reflexivity|lia].
Qed.

Lemma ParseUint_loop_ok : forall s acc n,
  0 <= acc <= strconv.maxUint64 ->
  strconv.ParseUint_loop 10 s acc = (n, None) <->
  decimal_from s acc = Some n /\ n <= strconv.maxUint64.
Proof.
  induction s as [|c s IH]; intros acc n Ha.
  - simpl. split.
    + intros H. injection H as H. subst n. split; [reflexivity|lia].
    + intros [H _]. injection H as H. subst n. reflexivity.
  - cbn [decimal_from]. destruct (is_digit c) eqn:Hc.
    + destruct (digit_of_digit c Hc) as [_ Hr].
      destruct (ParseUint_loop_digit c s acc Hc Ha) as [[Hfit HL]|[Hover HL]];
        rewrite HL.
      * apply IH. lia.
      * split; [discriminate|].
        intros [H Hn]. apply decimal_from_ge in H; lia.
    + rewrite ParseUint_loop_other by exact Hc.
      split; [discriminate|]. intros [H _]. discriminate.
Qed.

Lemma ParseUint_loop_range : forall s acc n,
  0 <= acc <= strconv.maxUint64 ->
  decimal_from s acc = Some n ->
  strconv.maxUint64 < n ->
  strconv.ParseUint_loop 10 s acc = (strconv.maxUint64, Some strconv.ErrRange).
Proof.
  induction s as [|c s IH]; intros acc n Ha H Hn.
  - simpl in H. injection H as H. lia.
  - cbn [decimal_from] in H. destruct (is_digit c) eqn:Hc; [|discriminate].
    destruct (digit_of_digit c Hc) as [_ Hr].
    destruct (ParseUint_loop_digit c s acc Hc Ha) as [[Hfit HL]|[Hover HL]];
      rewrite HL; [|reflexivity].
    apply (IH _ n); [lia|exact H|exact Hn].
Qed.

(** [ParseUint] gives a number without an error exactly for the strings of
    decimal digits that write a number below 2^64, and then it gives that
    number. *)
Lemma ParseUint_ok : forall s n,
  strconv.ParseUint s = (n, None) <->
  decimal s = Some n /\ n <= strconv.maxUint64.
Proof.
  intros [|c s] n.
  - simpl. split; [discriminate|]. intros [H _]. discriminate.
  - unfold strconv.ParseUint, decimal. apply ParseUint_loop_ok.
    change strconv.maxUint64 with 18446744073709551615. lia.
Qed.

Lemma ParseUint_range : forall s n,
  decimal s = Some n ->
  strconv.maxUint64 < n ->
  strconv.ParseUint s = (strconv.maxUint64, Some strconv.ErrRange).
Proof.
  intros [|c s] n H Hn; [discriminate|].
  unfold strconv.ParseUint, decimal in *.
  apply (ParseUint_loop_range _ 0 n); [|exact H|exact Hn].
  change strconv.maxUint64 with 18446744073709551615. lia.
Qed.

(** ** Trimming newlines *)

Lemma TrimRight_cons : forall c s cutset,
  strings.in_cutset c cutset = true ->
  strings.TrimRight (String c s) cutset =
  match strings.TrimRight s cutset with
  | EmptyString => EmptyString
  | t => String c t
  end.
Proof.
  intros c s cutset H. cbn [strings.TrimRight].
  destruct (strings.TrimRight s cutset); [rewrite H|]; reflexivity.
Qed.

Lemma Trim_cons : forall c s cutset,
  strings.in_cutset c cutset = true ->
  strings.Trim (String c s) cutset = strings.Trim s cutset.
Proof.
  intros c s cutset H. unfold strings.Trim. rewrite TrimRight_cons by exact H.
  destruct (strings.TrimRight s cutset) as [|x t]; [reflexivity|].
  cbn [strings.TrimLeft]. rewrite H. reflexivity.
Qed.

Lemma TrimRight_snoc : forall s c cutset,
  strings.in_cutset c cutset = true ->
  strings.TrimRight (s ++ String c EmptyString) cutset = strings.TrimRight s cutset.
Proof.
  induction s as [|x s IH]; intros c cutset H.
  - simpl. rewrite H. reflexivity.
  - cbn [append strings.TrimRight]. rewrite IH by exact H. reflexivity.
Qed.

Lemma newline_in_cutset : strings.in_cutset (ascii_of_nat 10) newline = true.
Proof. reflexivity. Qed.

Lemma newlines_snoc : forall n, newlines (S n) = newlines n ++ newline.
Proof.
  induction n as [|n IH]; [reflexivity|].
  change (newlines (S (S n))) with (newline ++ newlines (S n)).
  rewrite IH at 1.
  change (newlines (S n)) with (newline ++ newlines n).
  rewrite append_assoc. reflexivity.
Qed.

Lemma Trim_newlines : forall a b s,
  strings.Trim (newlines a ++ s ++ newlines b) newline = strings.Trim s newline.
Proof.
  induction a as [|a IHa]; intros b s.
  - cbn [newlines append]. induction b as [|b IHb].
    + cbn [newlines]. rewrite append_nil_r. reflexivity.
    + rewrite newlines_snoc, <- append_assoc. unfold strings.Trim.
      unfold newline at 1. rewrite TrimRight_snoc by exact newline_in_cutset.
      exact IHb.
  - change (newlines (S a) ++ s ++ newlines b)
      with (String (ascii_of_nat 10) (newlines a ++ s ++ newlines b)).
    rewrite Trim_cons by exact newline_in_cutset. apply IHa.
Qed.

(** ** Reading a version *)

Lemma parse_version_ok : forall l format bytes v evs,
  updater.parse_version l format bytes = ((v, None), evs) <->
  decimal (strings.Trim bytes newline) = Some v /\
  v <= strconv.maxUint64 /\
  evs = [updater.EvLog l format [v]].
Proof.
  intros l format bytes v evs. unfold updater.parse_version. cbv zeta.
  destruct (strconv.ParseUint (strings.Trim bytes newline)) as [n [e|]] eqn:HP.
  - split.
    + intros H. discriminate H.
    + intros (Hd & Hv & _).
      assert (H : strconv.ParseUint (strings.Trim bytes newline) = (v, None)).
      { apply ParseUint_ok. split; assumption. }
      rewrite H in HP. discriminate HP.
  - apply ParseUint_ok in HP. destruct HP as [Hd Hn].
    cbn. split.
    + intros H. injection H as Hv He. subst v evs. repeat split; assumption.
    + intros (Hd' & _ & He). rewrite Hd in Hd'. injection Hd' as Hv.
      subst v evs. reflexivity.
Qed.

Lemma parse_version_cases : forall l format bytes,
  (exists e, updater.parse_version l format bytes = ((0, Some e), [])) \/
  (exists v, updater.parse_version l format bytes =
             ((v, None), [updater.EvLog l format [v]])).
Proof.
  intros l format bytes. unfold updater.parse_version. cbv zeta.
  destruct (strconv.ParseUint (strings.Trim bytes newline)) as [n [e|]].
  - left. eexists. reflexivity.
  - right. exists n. reflexivity.
Qed.

Lemma localVersion_cases : forall env udr,
  (exists e, updater.localVersion env udr =
             ((0, Some e), [updater.EvReadFile (updater.localVersionURI udr)])) \/
  (exists v, updater.localVersion env udr =
             ((v, None),
              [updater.EvReadFile (updater.localVersionURI udr);
               updater.EvLog (updater.lgr udr)
                 "Successfully retrieved local version: %v" [v]])).
Proof.
  intros env udr. unfold updater.localVersion.
  destruct (updater.ReadFile env (updater.localVersionURI udr)) as [bytes|e].
  - destruct (parse_version_cases (updater.lgr udr)
                "Successfully retrieved local version: %v" bytes)
      as [(e & H)|(v & H)]; rewrite H; [left|right]; eexists; reflexivity.
  - left. eexists. reflexivity.
Qed.

Lemma remoteVersion_cases : forall env udr,
  (exists e, updater.Get env (updater.remoteVersionURI udr) = updater.GetFails e /\
             updater.remoteVersion env udr =
             ((0, Some e), [updater.EvGet (updater.remoteVersionURI udr)])) \/
  ((forall e, updater.Get env (updater.remoteVersionURI udr) <> updater.GetFails e) /\
   ((exists e, updater.remoteVersion env udr =
               ((0, Some e),
                [updater.EvGet (updater.remoteVersionURI udr); updater.EvBodyClose])) \/
    (exists v, updater.remoteVersion env udr =
               ((v, None),
                [updater.EvGet (updater.remoteVersionURI udr);
                 updater.EvLog (updater.lgr udr)
                   "Successfully retrieved remote version: %v" [v];
                 updater.EvBodyClose])))).
Proof.
  intros env udr. unfold updater.remoteVersion.
  destruct (updater.Get env (updater.remoteVersionURI udr)) as [e|e|body].
  - left. exists e. split; reflexivity.
  - right. split; [discriminate|]. left. exists e. reflexivity.
  - right. split; [discriminate|].
    destruct (parse_version_cases (updater.lgr udr)
                "Successfully retrieved remote version: %v" body)
      as [(e & H)|(v & H)]; rewrite H; [left|right]; eexists; reflexivity.
Qed.

(** X10: [localVersion] returns a version without an error exactly when the
    file can be read and what it holds, leading and trailing newlines taken
    off, is a string of decimal digits that writes a number below 2^64; the
    version is that number, and the events are the read and one log line. *)
Theorem localVersion_succeeds_iff : forall env udr v evs,
  updater.localVersion env udr = ((v, None), evs) <->
  exists bytes,
    updater.ReadFile env (updater.localVersionURI udr) = inl bytes /\
    decimal (strings.Trim bytes newline) = Some v /\
    v <= strconv.maxUint64 /\
    evs = [updater.EvReadFile (updater.localVersionURI udr);
           updater.EvLog (updater.lgr udr)
             "Successfully retrieved local version: %v" [v]].
Proof.
  intros env udr v evs. unfold updater.localVersion.
  destruct (updater.ReadFile env (updater.localVersionURI udr)) as [bytes|e].
  - destruct (updater.parse_version (updater.lgr udr)
                "Successfully retrieved local version: %v" bytes)
      as [[v' oe] evs'] eqn:HP.
    cbn. split.
    + intros H. injection H as Hv Ho He. subst v' oe evs.
      apply parse_version_ok in HP. destruct HP as (Hd & Hm & He). subst evs'.
      exists bytes. repeat split; assumption.
    + intros (bytes' & Hb & Hd & Hm & He). injection Hb as Hb. subst bytes'.
      assert (H : updater.parse_version (updater.lgr udr)
                    "Successfully retrieved local version: %v" bytes
                  = ((v, None), [updater.EvLog (updater.lgr udr)
                       "Successfully retrieved local version: %v" [v]])).
      { apply parse_version_ok. repeat split; assumption. }
      rewrite H in HP. injection HP as Hv Ho He'. subst v' oe evs' evs. reflexivity.
  - cbn. split; [discriminate|]. intros (bytes & Hb & _). discriminate Hb.
Qed.

(** X11: a number of 2^64 or more in the file is refused, not wrapped:
    [localVersion] returns 0 and a [NumError] of [ParseUint] with the range
    error and the trimmed text, and logs nothing. *)
Theorem localVersion_refuses_large_numbers : forall env udr bytes n,
  updater.ReadFile env (updater.localVersionURI udr) = inl bytes ->
  decimal (strings.Trim bytes newline) = Some n ->
  strconv.maxUint64 < n ->
  updater.localVersion env udr =
  ((0, Some (updater.NumError "ParseUint" (strings.Trim bytes newline) strconv.ErrRange)),
   [updater.EvReadFile (updater.localVersionURI udr)]).
Proof.
  intros env udr bytes n Hb Hd Hn. unfold updater.localVersion, updater.parse_version.
  rewrite Hb. cbv zeta. rewrite (ParseUint_range _ n Hd Hn). reflexivity.
Qed.

Lemma localVersion_refuses_large_numbers_witness :
  updater.localVersion
    (updater.example_env (inl ("18446744073709551616" ++ newline))
       (updater.Body "1"))
    updater.example_updater =
  ((0, Some (updater.NumError "ParseUint" "18446744073709551616" strconv.ErrRange)),
   [updater.EvReadFile "version.no"]).
Proof.
  apply (localVersion_refuses_large_numbers
           (updater.example_env (inl ("18446744073709551616" ++ newline))
              (updater.Body "1"))
           updater.example_updater ("18446744073709551616" ++ newline)
           18446744073709551616).
  - reflexivity.
  - reflexivity.
  - reflexivity.
Defined.

(** X12: newlines before and after the number in the file do not count:
    two files that differ in them only give the same result and the same
    events. *)
Theorem localVersion_ignores_outer_newlines : forall env1 env2 udr bytes a b,
  updater.ReadFile env1 (updater.localVersionURI udr)
    = inl (newlines a ++ bytes ++ newlines b) ->
  updater.ReadFile env2 (updater.localVersionURI udr) = inl bytes ->
  updater.localVersion env1 udr = updater.localVersion env2 udr.
Proof.
  intros env1 env2 udr bytes a b H1 H2. unfold updater.localVersion.
  rewrite H1, H2. unfold updater.parse_version. rewrite Trim_newlines. reflexivity.
Qed.

Lemma localVersion_ignores_outer_newlines_witness :
  updater.localVersion
    (updater.example_env (inl (newlines 2 ++ "41" ++ newlines 3)) (updater.Body "1"))
    updater.example_updater =
  updater.localVersion
    (updater.example_env (inl "41") (updater.Body "1"))
    updater.example_updater.
Proof.
  apply (localVersion_ignores_outer_newlines
           (updater.example_env (inl (newlines 2 ++ "41" ++ newlines 3)) (updater.Body "1"))
           (updater.example_env (inl "41") (updater.Body "1"))
           updater.example_updater "41" 2 3); reflexivity.
Defined.

(** X13: [remoteVersion] closes the response body once, as its last act, on
    every path on which the GET gave a response, whether reading or parsing
    fails or not; when the GET itself fails there is no body and nothing is
    closed. *)
Theorem remoteVersion_closes_body : forall env udr,
  (forall e,
     updater.Get env (updater.remoteVersionURI udr) = updater.GetFails e ->
     updater.remoteVersion env udr =
     ((0, Some e), [updater.EvGet (updater.remoteVersionURI udr)])) /\
  ((forall e, updater.Get env (updater.remoteVersionURI udr) <> updater.GetFails e) ->
   exists mid,
     snd (updater.remoteVersion env udr) =
       (updater.EvGet (updater.remoteVersionURI udr) :: mid ++ [updater.EvBodyClose])%list /\
     ~ In updater.EvBodyClose mid).
Proof.
  intros env udr.
  destruct (remoteVersion_cases env udr) as [(e & HG & HR)|(HG & [(e & HR)|(v & HR)])].
  - split.
    + intros e' H. rewrite HG in H. injection H as H. subst e'. exact HR.
    + intros H. exfalso. apply (H e), HG.
  - split.
    + intros e' H. exfalso. apply (HG e'), H.
    + intros _. exists []. rewrite HR. split; [reflexivity|intros []].
  - split.
    + intros e' H. exfalso. apply (HG e'), H.
    + intros _. eexists [_]. rewrite HR. split; [reflexivity|].
      simpl. intros [H|[]]. discriminate H.
Qed.

(** ** [UpdateNecessary] and [Run] *)

Lemma localVersion_failure : forall env udr e,
  snd (fst (updater.localVersion env udr)) = Some e ->
  updater.localVersion env udr =
  ((0, Some e), [updater.EvReadFile (updater.localVersionURI udr)]).
Proof.
  intros env udr e H.
  destruct (localVersion_cases env udr) as [(e' & HL)|(v & HL)];
    rewrite HL in H |- *; simpl in H; [|discriminate].
  injection H as H. subst e'. reflexivity.
Qed.

Lemma remoteVersion_gets : forall env udr,
  exists r rest,
    updater.remoteVersion env udr =
    (r, updater.EvGet (updater.remoteVersionURI udr) :: rest).
Proof.
  intros env udr.
  destruct (remoteVersion_cases env udr) as [(e & _ & HR)|(_ & [(e & HR)|(v & HR)])];
    rewrite HR; eexists; eexists; reflexivity.
Qed.

(** X14: when the local version cannot be had, [UpdateNecessary] returns
    false and that error after the read of the file alone, without a GET;
    [Run] returns the same error, but only after it has made the GET as
    well. *)
Theorem local_failure_and_the_network : forall env udr e,
  snd (fst (updater.localVersion env udr)) = Some e ->
  updater.UpdateNecessary env udr =
    ((false, Some e), [updater.EvReadFile (updater.localVersionURI udr)]) /\
  fst (updater.Run env udr) = Some e /\
  In (updater.EvGet (updater.remoteVersionURI udr)) (snd (updater.Run env udr)).
Proof.
  intros env udr e H. apply localVersion_failure in H.
  destruct (remoteVersion_gets env udr) as ([rv re] & rest & HR).
  unfold updater.UpdateNecessary, updater.Run. rewrite H, HR.
  split; [reflexivity|]. split; [reflexivity|].
  cbn. right. right. right. left. reflexivity.
Qed.

Lemma local_failure_and_the_network_witness :
  updater.UpdateNecessary
    (updater.example_env (inl "v12") (updater.Body "13")) updater.example_updater =
    ((false, Some (updater.NumError "ParseUint" "v12" strconv.ErrSyntax)),
     [updater.EvReadFile "version.no"]) /\
  fst (updater.Run
         (updater.example_env (inl "v12") (updater.Body "13")) updater.example_updater)
    = Some (updater.NumError "ParseUint" "v12" strconv.ErrSyntax) /\
  In (updater.EvGet "https://example.org/version.no")
     (snd (updater.Run
             (updater.example_env (inl "v12") (updater.Body "13"))
             updater.example_updater)).
Proof.
  apply (local_failure_and_the_network
           (updater.example_env (inl "v12") (updater.Body "13"))
           updater.example_updater
           (updater.NumError "ParseUint" "v12" strconv.ErrSyntax)).
  reflexivity.
Defined.

(** X15: when both versions are had, [UpdateNecessary] returns whether the
    local one is strictly below the remote one, and after the events of the
    two reads it logs one line and no more: which of the three it is says how
    the two numbers compare. *)
Theorem UpdateNecessary_verdict : forall env udr l r evl evr,
  updater.localVersion env udr = ((l, None), evl) ->
  updater.remoteVersion env udr = ((r, None), evr) ->
  exists verdict,
    updater.UpdateNecessary env udr =
      ((l <? r, None),
       (evl ++ evr ++ [updater.EvLog (updater.lgr udr) verdict [l; r]])%list) /\
    (verdict = updater.verdict_higher <-> r < l) /\
    (verdict = updater.verdict_equal <-> l = r) /\
    (verdict = updater.verdict_lower <-> l < r).
Proof.
  intros env udr l r evl evr HL HR.
  unfold updater.UpdateNecessary. rewrite HL.
  cbv beta iota delta [updater.bind]. rewrite HR.
  cbv beta iota delta [updater.bind updater.ret updater.LogMessage updater.emit].
  destruct (Z.ltb_spec r l) as [H1|H1];
    destruct (Z.eqb_spec l r) as [H2|H2];
    destruct (Z.ltb_spec l r) as [H3|H3]; try lia.
  - exists updater.verdict_higher. split.
    + simpl. rewrite ?app_nil_r. reflexivity.
    + split; [tauto|]. split; split; intros H; try discriminate H; lia.
  - exists updater.verdict_equal. split.
    + simpl. rewrite ?app_nil_r. reflexivity.
    + split; [|split]; split; intros H; try discriminate H; try lia; reflexivity.
  - exists updater.verdict_lower. split.
    + simpl. rewrite ?app_nil_r. reflexivity.
    + split; [|split]; split; intros H; try discriminate H; try lia; reflexivity.
Qed.

Lemma UpdateNecessary_verdict_witness :
  exists verdict,
    updater.UpdateNecessary
      (updater.example_env (inl "12") (updater.Body "13")) updater.example_updater =
      ((true, None),
       [updater.EvReadFile "version.no";
        updater.EvLog 7%nat "Successfully retrieved local version: %v" [12];
        updater.EvGet "https://example.org/version.no";
        updater.EvLog 7%nat "Successfully retrieved remote version: %v" [13];
        updater.EvBodyClose;
        updater.EvLog 7%nat verdict [12; 13]]) /\
    (verdict = updater.verdict_higher <-> 13 < 12) /\
    (verdict = updater.verdict_equal <-> 12 = 13) /\
    (verdict = updater.verdict_lower <-> 12 < 13).
Proof.
  apply (UpdateNecessary_verdict
           (updater.example_env (inl "12") (updater.Body "13"))
           updater.example_updater 12 13
           [updater.EvReadFile "version.no";
            updater.EvLog 7%nat "Successfully retrieved local version: %v" [12]]
           [updater.EvGet "https://example.org/version.no";
            updater.EvLog 7%nat "Successfully retrieved remote version: %v" [13];
            updater.EvBodyClose]); reflexivity.
Defined.

(** X16: [Run] and [UpdateNecessary] agree: on the same file and the same
    answer of the server [Run] returns the error [UpdateNecessary] returns,
    and it reaches [doUpdate], whose log line is "performing an update",
    exactly when [UpdateNecessary] says true. *)
Theorem Run_agrees_with_UpdateNecessary : forall env udr,
  fst (updater.Run env udr) = snd (fst (updater.UpdateNecessary env udr)) /\
  (In (updater.EvLog (updater.lgr udr) "performing an update" [])
      (snd (updater.Run env udr)) <->
   fst (fst (updater.UpdateNecessary env udr)) = true).
Proof.
  intros env udr. unfold updater.Run, updater.UpdateNecessary.
  destruct (localVersion_cases env udr) as [(e & HL)|(l & HL)]; rewrite HL;
    destruct (remoteVersion_cases env udr)
      as [(e' & _ & HR)|(_ & [(e' & HR)|(r & HR)])]; rewrite HR;
    cbn [updater.bind updater.ret updater.emit updater.LogMessage fst snd app];
    try (split; [reflexivity|];
         split; [simpl; intuition discriminate|discriminate]).
  destruct (Z.ltb_spec l r) as [Hlt|Hge].
  - destruct (Z.ltb_spec r l); destruct (Z.eqb_spec l r); try lia;
      cbn; (split; [reflexivity|]); (split; [reflexivity|]);
      intros _; do 10 right; left; reflexivity.
  - destruct (Z.ltb_spec r l); destruct (Z.eqb_spec l r); try lia;
      cbn; (split; [reflexivity|]);
      (split; [intuition discriminate|discriminate]).
Qed.
